(** * rcute_cozmars.speaker: the audio streaming pipeline

    A shallow embedding of [src/rcute_cozmars/speaker.py]: the block codec
    ([raw_gen], [np_gen]), the repeat expander ([repeat_gen]), the tone
    synthesizer ([max_freq], [tone2audio], [beep]) and the playback pacer
    ([play]), followed by the properties of the specification.

    Conventions of the embedding.
    - Python [int] is [Z]; a Python number is carried by its value, a
      rational ([Q]).  The counter of the pacing loop, whose rounding
      decides how many blocks go out before the first wait, is computed in
      binary64.  numpy's arithmetic on the elements of an array is a
      parameter.
    - [bytes] is [list byte]; a finite generator is the list of the items it
      yields, wrapped in [result] when its body can raise before the first
      item.
    - A raised exception is the [Err] case of [result].
    - [await]-ed effects of [play] are recorded in an explicit event trace. *)

From Stdlib Require Import Strings.String Strings.Ascii Strings.Byte.
From Stdlib Require Import List ZArith QArith Qround Bool Lia Lqa.
From Stdlib Require Import Floats.SpecFloat.
Import ListNotations.

Local Open Scope Z_scope.

(** ** Exceptions and results *)

Inductive exn : Type :=
| ValueError (msg : string)
| TypeError (msg : string)
| ZeroDivisionError (msg : string)
| OtherError (msg : string).

Inductive result (A : Type) : Type :=
| Ok (a : A)
| Err (e : exn).

Arguments Ok {A} a.
Arguments Err {A} e.

Definition bind {A B : Type} (r : result A) (k : A -> result B) : result B :=
  match r with
  | Ok a => k a
  | Err e => Err e
  end.

Notation "x <- r ;; k" := (bind r (fun x => k))
  (at level 61, r at next level, right associativity).

(** ** Python built-ins used by the module *)

Definition bytes := list byte.

Definition len {A : Type} (l : list A) : Z := Z.of_nat (length l).

(** [range(start, stop, step)], with CPython's length computation. *)
Definition range_len (start stop step : Z) : Z :=
  if 0 <? step then
    if start <? stop then (stop - start - 1) / step + 1 else 0
  else
    if stop <? start then (start - stop - 1) / (- step) + 1 else 0.

Definition py_range (start stop step : Z) : result (list Z) :=
  if step =? 0 then Err (ValueError "range() arg 3 must not be zero"%string)
  else Ok (map (fun k => start + Z.of_nat k * step)
               (seq 0 (Z.to_nat (range_len start stop step)))).

(** Slice bounds are clamped the way Python clamps them. *)
Definition clamp_index (n i : Z) : Z :=
  if i <? 0 then Z.max (i + n) 0 else Z.min i n.

Definition py_slice {A : Type} (data : list A) (lo hi : Z) : list A :=
  let lo' := clamp_index (len data) lo in
  let hi' := clamp_index (len data) hi in
  firstn (Z.to_nat (hi' - lo')) (skipn (Z.to_nat lo') data).

(** [b * n] on a bytes object: [n <= 0] gives the empty bytes. *)
Definition bytes_mul (b : bytes) (n : Z) : bytes :=
  concat (repeat b (Z.to_nat n)).

(** [int(x)] on a float truncates towards zero. *)
Definition py_int (x : Q) : Z := Z.quot (Qnum x) (Z.pos (Qden x)).

(** [functools.reduce(f, l, init)]. *)
Definition reduce {A B : Type} (f : B -> A -> B) (l : list A) (init : B) : B :=
  fold_left f l init.

(** [s.startswith(p)]. *)
Definition startswith (s p : string) : bool := String.prefix p s.

(** [a < b] on floats. *)
Definition Qltb (a b : Q) : bool := if Qlt_le_dec a b then true else false.

(** [max(a, b)]: the second argument wins only when strictly larger. *)
Definition py_max (a b : Q) : Q := if Qltb a b then b else a.

(** ** numpy arrays

    A sample array of one dimension (mono) or two (one row per frame, one
    column per channel).  Sample values are rationals; an array of an
    integer dtype holds integral values. *)

Inductive ndarray : Type :=
| Array1 (dtype : string) (samples : list Q)
| Array2 (dtype : string) (frames : list (list Q)).

Definition ndim (a : ndarray) : Z :=
  match a with Array1 _ _ => 1 | Array2 _ _ => 2 end.

Definition dtype_of (a : ndarray) : string :=
  match a with Array1 d _ | Array2 d _ => d end.

(** The samples in memory order (row by row for two dimensions). *)
Definition samples_of (a : ndarray) : list Q :=
  match a with
  | Array1 _ xs => xs
  | Array2 _ frames => concat frames
  end.

(** Width in bits of the signed integer dtypes, by the names numpy takes
    that start with [int]: the four fixed-width ones, and the aliases of
    the C types, [int], [int_], [intp] and [int0] being 64 bits wide and
    [intc] 32 where the C [long] has 64 bits (and, from NumPy 2 on, on
    every 64-bit platform). *)
Definition int_bits (dt : string) : option Z :=
  if String.eqb dt "int8" then Some 8
  else if String.eqb dt "int16" then Some 16
  else if String.eqb dt "int32" then Some 32
  else if String.eqb dt "int64" then Some 64
  else if String.eqb dt "int" then Some 64
  else if String.eqb dt "int_" then Some 64
  else if String.eqb dt "intp" then Some 64
  else if String.eqb dt "int0" then Some 64
  else if String.eqb dt "intc" then Some 32
  else None.

(** [np.iinfo(dt).max]; numpy raises [TypeError] on a name it does not
    understand. *)
Definition iinfo_max (dt : string) : result Z :=
  match int_bits dt with
  | Some w => Ok (2 ^ (w - 1) - 1)
  | None => Err (TypeError ("data type '" ++ dt ++ "' not understood"))
  end.

(** Two's-complement wrap of [z] to [w] bits. *)
Definition wrap_signed (w z : Z) : Z :=
  (z + 2 ^ (w - 1)) mod 2 ^ w - 2 ^ (w - 1).

(** A cast in exact arithmetic, for the examples and for the rules as the
    specification words them: truncation towards zero for an integer
    target, wrapped to the width of the type, the value itself for a float
    target. *)
Definition cast_sample (dt : string) (x : Q) : Q :=
  if startswith dt "int" then
    match int_bits dt with
    | Some w => inject_Z (wrap_signed w (py_int x))
    | None => inject_Z (py_int x)
    end
  else x.

Definition astype (dt : string) (xs : list Q) : list Q :=
  map (cast_sample dt) xs.

Definition byte_of_Z (z : Z) : byte :=
  match Byte.of_N (Z.to_N (z mod 256)) with
  | Some b => b
  | None => x00
  end.

(** Little-endian bytes of an integer sample, [n] bytes wide. *)
Fixpoint int_tobytes (n : nat) (z : Z) : bytes :=
  match n with
  | O => []
  | S n' => byte_of_Z z :: int_tobytes n' (z / 256)
  end.

(** numpy computes in the dtype of the array, float32 as often as not:
    a product is rounded to that dtype, and what a cast makes of a value
    the target type cannot hold depends on the platform.  The arithmetic
    on one element is therefore a parameter of the codec, as the encoding
    of floats and the mean of a frame are. *)
Record numpy : Type := mk_numpy {
  (* one element of [data * m], [data] of dtype [d], [m] a Python int *)
  np_multiply : string -> Q -> Z -> Q;
  (* one element of [data / m], [data] of dtype [d], [m] a Python int *)
  np_true_divide : string -> Q -> Z -> Q;
  (* one element of [data.astype(dt)] *)
  np_astype : string -> Q -> Q
}.

(** ** Block codec *)

Section Codec.

(** [util.sample_width] lives in [util.py], which is not part of the
    module; it is a parameter of the codec. *)
Variable sample_width : string -> Z.

(** The encoding of one sample of a dtype other than the signed
    integers, IEEE-754 for the float dtypes, as numpy's [tobytes] lays it
    out. *)
Variable float_tobytes : string -> Q -> bytes.

(** One row of [data.mean(axis=1, dtype=dt)]: the mean of the channel
    values of a frame, from the source dtype, accumulated in [dt]. *)
Variable frame_mean : string -> string -> list Q -> Q.

Variable np : numpy.

Definition sample_tobytes (dtype : string) (x : Q) : bytes :=
  match int_bits dtype with
  | Some w => int_tobytes (Z.to_nat (w / 8)) (py_int x)
  | None => float_tobytes dtype x
  end.

(** [data.tobytes()] of a one-dimensional array. *)
Definition tobytes (dtype : string) (samples : list Q) : bytes :=
  concat (map (sample_tobytes dtype) samples).

(** The body of the loop of [raw_gen] (lines 174-177) at offset [i], [bs]
    being the block size in bytes. *)
Definition block_at (data : bytes) (bs i : Z) : bytes :=
  let b := py_slice data i (i + bs) in
  if len b <? bs then b ++ bytes_mul [x00] (bs - len b) else b.

Definition raw_gen (data : bytes) (dt : string) (bs : Z)
  : result (list bytes) :=
  let bs := bs * sample_width dt in
  idx <- py_range 0 (len data) bs ;;
  Ok (map (block_at data bs) idx).

(** [data.mean(axis=1, dtype=dt)]: one sample per frame, of dtype [dt]. *)
Definition mean_axis1 (data : ndarray) (dt : string) : ndarray :=
  match data with
  | Array1 _ _ => data
  | Array2 d frames => Array1 dt (map (frame_mean d dt) frames)
  end.

(** The conversion prefix of [np_gen] (lines 162-167): the dtype and the
    samples of [data] when [tobytes] is reached. *)
Definition np_convert (data : ndarray) (dt : string)
  : result (string * list Q) :=
  let data := if 1 <? ndim data then mean_axis1 data dt else data in
  let d := dtype_of data in
  let xs := samples_of data in
  if startswith d "float" && startswith dt "int" then
    m <- iinfo_max dt ;;
    Ok (dt, map (fun x => np_astype np dt (np_multiply np d x m)) xs)
  else if startswith d "int" && startswith dt "float" then
    m <- iinfo_max d ;;
    Ok (dt, map (fun x => np_true_divide np dt (np_astype np dt x) m) xs)
  else Ok (d, xs).

Definition np_gen (data : ndarray) (dt : string) (bs : Z)
  : result (list bytes) :=
  a <- np_convert data dt ;;
  raw_gen (tobytes (fst a) (snd a)) dt bs.

End Codec.

(** ** Repeat expander

    [itertools.tee(gen, n)] gives [n] views over one underlying iterator.
    The views share a spine of the items pulled so far; each view has a
    cursor of its own.  A view whose cursor is inside the spine replays the
    buffered item; a view at the end of the spine pulls the next item from
    the underlying iterator and appends it to the spine. *)

Module Tee.

Record state : Type := mk_state {
  source : list bytes;   (* items the underlying iterator has yet to yield *)
  spine : list bytes     (* items pulled so far, shared by all views *)
}.

Definition next (st : state) (cursor : nat)
  : option (bytes * state * nat) :=
  match nth_error (spine st) cursor with
  | Some b => Some (b, st, S cursor)
  | None =>
      match source st with
      | [] => None
      | b :: rest =>
          Some (b, {| source := rest; spine := spine st ++ [b] |}, S cursor)
      end
  end.

(** [yield from view]: take items until the view is exhausted.  No view
    can yield more than [length spine + length source] items, which is
    the fuel [yield_from] starts from. *)
Fixpoint drain (fuel : nat) (st : state) (cursor : nat)
  : list bytes * state :=
  match fuel with
  | O => ([], st)
  | S fuel' =>
      match next st cursor with
      | None => ([], st)
      | Some (b, st', cursor') =>
          let '(out, st'') := drain fuel' st' cursor' in
          (b :: out, st'')
      end
  end.

Definition yield_from (st : state) (cursor : nat) : list bytes * state :=
  drain (length (spine st) + length (source st)) st cursor.

(** [for g in views: yield from g]. *)
Fixpoint chain (st : state) (views : list nat) : list bytes :=
  match views with
  | [] => []
  | cursor :: views' =>
      let '(out, st') := yield_from st cursor in
      out ++ chain st' views'
  end.

(** [itertools.tee(it, n)]: the cursors of the [n] fresh views. *)
Definition tee (n : Z) : result (list nat) :=
  if n <? 0 then Err (ValueError "n must be >= 0")
  else Ok (repeat O (Z.to_nat n)).

End Tee.

(** [gen] is the generator handed to [repeat_gen]: [Err e] is a generator
    whose body raises [e] when first advanced. *)
Definition repeat_gen (gen : result (list bytes)) (repeat : Z)
  : result (list bytes) :=
  if repeat =? 1 then gen
  else
    views <- Tee.tee repeat ;;
    match views with
    | [] => Ok []
    | _ :: _ =>
        items <- gen ;;
        Ok (Tee.chain {| Tee.source := items; Tee.spine := [] |} views)
    end.

(** ** Playback pacer *)

(** The effects of [play] that the output channel and the scheduler see,
    in program order. *)
Inductive event : Type :=
| LockAcquire                    (* async with self._lock: entry *)
| SetFormat (sr : Z) (dt : string) (bs : Z)
                                 (* self._t_sr, self._t_dt, self._t_bs *)
| StreamOpen                     (* async with self: entry *)
| Put (raw : bytes)              (* await self._input_stream.put(raw) *)
| Sleep (seconds : Q)            (* await asyncio.sleep(seconds) *)
| StreamClose                    (* async with self: exit *)
| LockRelease.                   (* async with self._lock: exit *)

(** *** Python floats

    [count] is a Python float, IEEE 754 binary64, and the rounding of its
    sums decides how many blocks go out before the first wait.  It is
    computed with the standard library's specification of binary64
    ([SpecFloat], 53 bits of precision, exponents up to 1024). *)

(** The float nearest to a rational, ties to even: the float Python makes
    of a literal such as [.1] and of an int. *)
Definition binary64 (q : Q) : spec_float :=
  match Qnum q with
  | Z0 => S754_zero false
  | Zpos n =>
      let '(m, e, l) :=
        SFdiv_core_binary 53 1024 (Zpos n) 0 (Zpos (Qden q)) 0 in
      binary_round_aux 53 1024 false m e l
  | Zneg n =>
      let '(m, e, l) :=
        SFdiv_core_binary 53 1024 (Zpos n) 0 (Zpos (Qden q)) 0 in
      binary_round_aux 53 1024 true m e l
  end.

(** [a + b] on floats. *)
Definition float_add (a b : spec_float) : spec_float := SFadd 53 1024 a b.

(** The body of the [for] loop of [play] (lines 55-61), [count] being the
    loop-carried variable.  [bd] and [preload] are read as floats.  An int
    (the default [preload=1]) is compared and added as the float of its
    value, which gives what Python's mixed comparison and its int addition
    give as long as the arguments are below 2^53 in magnitude.  The time
    slept is written as the product [bd * 0.95] itself; nothing depends on
    the rounding of that product. *)
Fixpoint pace (bd preload : Q) (count : spec_float) (blocks : list bytes)
  : list event :=
  match blocks with
  | [] => []
  | raw :: rest =>
      Put raw ::
      (if SFltb count (binary64 preload)
       then pace bd preload (float_add count (binary64 bd)) rest
       else Sleep (bd * (95 # 100))%Q :: pace bd preload count rest)
  end.

(** The value of [count] after [k] passes through [count += bd]. *)
Fixpoint count_binary64 (bd : Q) (k : nat) : spec_float :=
  match k with
  | O => S754_zero false
  | S k' => float_add (count_binary64 bd k') (binary64 bd)
  end.

(** Out of [n] blocks, the number pushed while the summed durations of the
    blocks before them are below [preload]: the first [k] at which the sum
    of [k] durations is not below [preload], or [n]. *)
Definition burst (bd preload : Q) (n : nat) : nat :=
  match find (fun k => negb (SFltb (count_binary64 bd k) (binary64 preload)))
             (seq 0 n) with
  | Some k => k
  | None => n
  end.

(** The pacing the specification describes: the first [n] blocks back to
    back, every later block followed by a wait of [0.95 * bd] seconds. *)
Definition burst_then_paced (n : nat) (bd : Q) (blocks : list bytes)
  : list event :=
  map Put (firstn n blocks)
  ++ flat_map (fun raw => [Put raw; Sleep (bd * (95 # 100))%Q])
              (skipn n blocks).

Record Speaker : Type := mk_Speaker {
  sample_rate : Z;
  dtype : string;
  block_duration : Q
}.

(** [Speaker.__init__] (line 17). *)
Definition Speaker_init : Speaker :=
  {| sample_rate := 22050; dtype := "int16"; block_duration := 1 # 10 |}.

(** The keyword arguments [play] looks at. *)
Record kwargs : Type := mk_kwargs {
  kw_sample_rate : option Z;
  kw_dtype : option string;
  kw_block_duration : option Q
}.

Definition no_kw : kwargs :=
  {| kw_sample_rate := None; kw_dtype := None; kw_block_duration := None |}.

Definition kw_get {A : Type} (o : option A) (default : A) : A :=
  match o with Some a => a | None => default end.

(** What [play] can be handed as [src], by the test that recognises it. *)
Inductive source : Type :=
| SrcStr (name : string)            (* isinstance(src, str) *)
| SrcFileLike (name : string)       (* hasattr(src, 'read') *)
| SrcArray (a : ndarray)            (* isinstance(src, np.ndarray) *)
| SrcBytes (b : bytes)              (* isinstance(src, bytes) *)
| SrcIterable (blocks : list bytes) (* any other Iterable *)
| SrcOther (repr : string).         (* none of the above *)

Section Play.

Variable sample_width : string -> Z.
Variable float_tobytes : string -> Q -> bytes.
Variable frame_mean : string -> string -> list Q -> Q.
Variable np : numpy.

(** [file_sr_bs_gen] decodes through soundfile, librosa and urllib; its
    outcome for a given source and hints is a parameter: the actual
    sample rate, the block size and the block generator. *)
Variable file_sr_bs_gen :
  source -> Z -> string -> Q -> result (Z * Z * result (list bytes)).

(** Lines 50-61: the streaming phase, entered once [src] is Iterable. *)
Definition stream (sr : Z) (dt : string) (bs : Z) (bd preload : Q)
    (gen : result (list bytes)) (repeat : Z) : list event * result unit :=
  match repeat_gen gen repeat with
  | Ok blocks =>
      ([LockAcquire; SetFormat sr dt bs; StreamOpen]
         ++ pace bd preload (S754_zero false) blocks
         ++ [StreamClose; LockRelease],
       Ok tt)
  | Err e =>
      ([LockAcquire; SetFormat sr dt bs; StreamOpen;
        StreamClose; LockRelease],
       Err e)
  end.

Definition play (self : Speaker) (src : source) (repeat : Z) (preload : Q)
    (kw : kwargs) : list event * result unit :=
  let sr := kw_get (kw_sample_rate kw) (sample_rate self) in
  let dt := kw_get (kw_dtype kw) (dtype self) in
  let bd := kw_get (kw_block_duration kw) (block_duration self) in
  let bs := py_int (bd * inject_Z sr) in
  match src with
  | SrcStr _ | SrcFileLike _ =>
      match file_sr_bs_gen src sr dt bd with
      | Ok (sr, bs, gen) => stream sr dt bs bd preload gen repeat
      | Err e => ([], Err e)
      end
  | SrcArray a =>
      stream sr dt bs bd preload
             (np_gen sample_width float_tobytes frame_mean np a dt bs) repeat
  | SrcBytes b =>
      stream sr dt bs bd preload (raw_gen sample_width b dt bs) repeat
  | SrcIterable blocks => stream sr dt bs bd preload (Ok blocks) repeat
  | SrcOther repr => ([], Err (TypeError ("Unable to open " ++ repr)))
  end.

End Play.

(** ** pydub audio segments

    [tone2audio] builds its result with pydub.  A segment is modelled by
    its timeline: what sounds, and for how many milliseconds.  Durations
    are exact: pydub counts whole frames, compares a cross-fade with
    [len()] rounded to whole milliseconds, and ends the message of its
    [ValueError] with the two lengths, none of which is modelled.  The
    phrases evaluated below have durations of whole milliseconds and whole
    frames.  The operations follow pydub's [AudioSegment]:
    - [a + b] is [a.append(b, crossfade=0)];
    - [a.append(b, crossfade=c)] with [c] zero joins the data of [a] and
      [b]; it raises [ValueError] when [c] exceeds the length of [a] or of
      [b]; otherwise it writes [a[:-c]], then the last [c] ms of [a] faded
      out and overlaid with the first [c] ms of [b] faded in, then [b[c:]],
      so that the result lasts [len(a) + len(b) - c]. *)

Module AudioSegment.

Local Open Scope Q_scope.

Inductive sound : Type :=
| Sine (freq : Q)
| Silence
| Mix (fade_out fade_in : sound).

Definition t : Type := list (sound * Q).

Definition empty : t := [].

(** A stretch of [ms] milliseconds of [s]; nothing when [ms <= 0]. *)
Definition span (s : sound) (ms : Q) : t :=
  if Qlt_le_dec 0 ms then [(s, ms)] else [].

(** [Sine(freq, sample_rate=sr).to_audio_segment(duration=ms)]. *)
Definition sine (freq : Q) (sr : Z) (ms : Q) : t := span (Sine freq) ms.

(** [AudioSegment.silent(duration=ms, frame_rate=sr)]. *)
Definition silent (ms : Q) (sr : Z) : t := span Silence ms.

(** [len(seg)], in milliseconds. *)
Fixpoint duration (seg : t) : Q :=
  match seg with
  | [] => 0
  | (_, d) :: rest => d + duration rest
  end.

(** [seg[:ms]] and [seg[ms:]] for [0 <= ms]. *)
Fixpoint take (ms : Q) (seg : t) : t :=
  match seg with
  | [] => []
  | (s, d) :: rest =>
      if Qlt_le_dec 0 ms then
        if Qlt_le_dec ms d then [(s, ms)] else (s, d) :: take (ms - d) rest
      else []
  end.

Fixpoint drop (ms : Q) (seg : t) : t :=
  match seg with
  | [] => []
  | (s, d) :: rest =>
      if Qlt_le_dec 0 ms then
        if Qlt_le_dec ms d then (s, d - ms) :: rest else drop (ms - d) rest
      else seg
  end.

(** The cross-faded overlap of two stretches of equal length; every step
    consumes a span of [a] or of [b]. *)
Fixpoint overlay_aux (fuel : nat) (a b : t) : t :=
  match fuel, a, b with
  | S fuel', (s, d) :: a', (u, e) :: b' =>
      match Qcompare d e with
      | Eq => (Mix s u, d) :: overlay_aux fuel' a' b'
      | Lt => (Mix s u, d) :: overlay_aux fuel' a' ((u, e - d) :: b')
      | Gt => (Mix s u, e) :: overlay_aux fuel' ((s, d - e) :: a') b'
      end
  | _, _, _ => []
  end.

Definition overlay (a b : t) : t :=
  overlay_aux (length a + length b) a b.

Definition append (seg1 seg2 : t) (crossfade : Q) : result t :=
  if Qeq_bool crossfade 0 then Ok (seg1 ++ seg2)
  else if Qlt_le_dec (duration seg1) crossfade then
    Err (ValueError "Crossfade is longer than the original AudioSegment")
  else if Qlt_le_dec (duration seg2) crossfade then
    Err (ValueError "Crossfade is longer than the appended AudioSegment")
  else
    let keep := duration seg1 - crossfade in
    Ok (take keep seg1
        ++ overlay (drop keep seg1) (take crossfade seg2)
        ++ drop crossfade seg2).

Definition add (seg1 seg2 : t) : t := seg1 ++ seg2.

End AudioSegment.

(** ** Tone synthesizer *)

#[local] Set Warnings "-register-all".

(** An element of a tone sequence: a pitch handed to gpiozero's [Tone], or
    a nested list or tuple. *)
Inductive tone (pitch : Type) : Type :=
| Pitch (e : pitch)
| Phrase (l : list (tone pitch)).

Arguments Pitch {pitch} e.
Arguments Phrase {pitch} l.

Section Tones.

(** What gpiozero's [Tone] accepts (a note name, a MIDI number, a
    frequency), and [Tone(e).frequency], the frequency in Hz it resolves
    to. *)
Variable pitch : Type.
Variable frequency : pitch -> Q.

(** The argument of [max] for one element [e] (line 127); a nested
    element is [max_freq(e)]. *)
Fixpoint elem_max_freq (e : tone pitch) : Q :=
  match e with
  | Pitch x => frequency x
  | Phrase l => reduce (fun r e' => py_max r (elem_max_freq e')) l 0%Q
  end.

Definition max_freq (tones : list (tone pitch)) : Q :=
  reduce (fun r e => py_max r (elem_max_freq e)) tones 0%Q.

(** The audio of a leaf (line 133). *)
Definition note (e : pitch) (base_beat_ms duty_cycle : Q) (sr : Z)
  : result AudioSegment.t :=
  let duty := (base_beat_ms * duty_cycle)%Q in
  let empty := (base_beat_ms - duty)%Q in
  AudioSegment.append (AudioSegment.sine (frequency e) sr duty)
                      (AudioSegment.silent empty sr) empty.

(** [lambda r, e: r + f(e)], an exception of either operand going
    through. *)
Definition add_audio (f : tone pitch -> result AudioSegment.t)
    (r : result AudioSegment.t) (e : tone pitch) : result AudioSegment.t :=
  r' <- r ;; a <- f e ;; Ok (AudioSegment.add r' a).

(** [functools.reduce(lambda r, e: r + f(e), tones, AudioSegment.empty())]. *)
Definition reduce_add (f : tone pitch -> result AudioSegment.t)
    (tones : list (tone pitch)) : result AudioSegment.t :=
  reduce (add_audio f) tones (Ok AudioSegment.empty).

(** The summand of the reduction for one element [e] (lines 132-133); a
    nested element is [tone2audio(e, base_beat_ms/2, duty_cycle, sr)]. *)
Fixpoint elem_audio (e : tone pitch) (base_beat_ms duty_cycle : Q) (sr : Z)
  : result AudioSegment.t :=
  match e with
  | Pitch x => note x base_beat_ms duty_cycle sr
  | Phrase l =>
      reduce_add (fun e' => elem_audio e' (base_beat_ms / 2)%Q duty_cycle sr)
                 l
  end.

Definition tone2audio (tones : list (tone pitch))
    (base_beat_ms duty_cycle : Q) (sr : Z) : result AudioSegment.t :=
  reduce_add (fun e => elem_audio e base_beat_ms duty_cycle sr) tones.

(** Lines 115-121 of [beep]: the rendering sample rate. *)
Definition beep_sample_rate (tones : list (tone pitch)) : Z :=
  let sr := max_freq tones in
  if Qltb 11025 sr then 44100
  else if Qltb 800 sr then 22050
  else 16000.

Variable sample_width : string -> Z.
Variable float_tobytes : string -> Q -> bytes.
Variable frame_mean : string -> string -> list Q -> Q.
Variable np : numpy.
Variable file_sr_bs_gen :
  source -> Z -> string -> Q -> result (Z * Z * result (list bytes)).

(** [aud.raw_data]: the PCM bytes pydub holds for a segment rendered at
    the given frame rate. *)
Variable raw_data : Z -> AudioSegment.t -> bytes.

Definition beep (self : Speaker) (tones : list (tone pitch)) (repeat : Z)
    (tempo duty_cycle : Q) : list event * result unit :=
  if negb (Qltb 0 duty_cycle && Qle_bool duty_cycle 1) then
    ([], Err (ValueError "duty_cycle out of range (0, 1]"))
  else
    let sr := beep_sample_rate tones in
    if Qeq_bool tempo 0 then
      ([], Err (ZeroDivisionError "float division by zero"))
    else
      match tone2audio tones (60000 / tempo)%Q duty_cycle sr with
      | Err e => ([], Err e)
      | Ok aud =>
          play sample_width float_tobytes frame_mean np file_sr_bs_gen self
               (SrcBytes (raw_data sr aud)) repeat 1%Q
               {| kw_sample_rate := Some sr;
                  kw_dtype := Some "int16"%string;
                  kw_block_duration := None |}
      end.

End Tones.

(** ** Instances of the parameters used in the examples *)

(** Modelled from the spec: [util.sample_width] is missing from the module;
    the spec calls it the byte-width of the sample type, two bytes for
    signed 16-bit integers and four for 32-bit floats.  The width is read
    off the bit count in the dtype name. *)
Definition sample_width_pcm (dt : string) : Z :=
  if String.eqb dt "int8" then 1
  else if String.eqb dt "int16" then 2
  else if String.eqb dt "float16" then 2
  else if String.eqb dt "int32" then 4
  else if String.eqb dt "float32" then 4
  else 8.

(** [Tone(f).frequency] for a pitch given as a frequency in Hz, as in
    [Tone(440.0)]. *)
Definition frequency_hz (f : Q) : Q := f.

(** The exact mean of the channel values of a frame. *)
Definition frame_mean_exact (src_dtype dt : string) (frame : list Q) : Q :=
  (fold_left Qplus frame 0 / inject_Z (len frame))%Q.

(** Arithmetic without rounding, for the examples: they scale no sample
    whose product numpy would round. *)
Definition np_exact : numpy :=
  {| np_multiply := fun _ x m => (x * inject_Z m)%Q;
     np_true_divide := fun _ x m => (x / inject_Z m)%Q;
     np_astype := cast_sample |}.

(** The encoding of the float sample [0.0], which is all zero bytes; the
    examples encode no other float sample. *)
Definition float_tobytes_zero (dtype : string) (x : Q) : bytes :=
  repeat x00 (Z.to_nat (sample_width_pcm dtype)).

(** A file system and a network on which nothing can be opened. *)
Definition file_sr_bs_gen_absent (src : source) (sr : Z) (dt : string)
    (bd : Q) : result (Z * Z * result (list bytes)) :=
  Err (OtherError "Error opening file: System error.").

(** The PCM bytes of a segment with every 16-bit sample replaced by zero:
    two bytes per frame, [duration * sr / 1000] frames.  The examples
    depend on the length of the data only. *)
Definition raw_data_zeroed (sr : Z) (aud : AudioSegment.t) : bytes :=
  repeat x00
    (Z.to_nat (2 * py_int (AudioSegment.duration aud * inject_Z sr / 1000)%Q)).

(** [play] and [beep] under these instances. *)
Definition play_pcm : Speaker -> source -> Z -> Q -> kwargs
                      -> list event * result unit :=
  play sample_width_pcm float_tobytes_zero frame_mean_exact np_exact
       file_sr_bs_gen_absent.

Definition beep_hz : Speaker -> list (tone Q) -> Z -> Q -> Q
                     -> list event * result unit :=
  beep Q frequency_hz sample_width_pcm float_tobytes_zero frame_mean_exact
       np_exact file_sr_bs_gen_absent raw_data_zeroed.

(** Three one-byte blocks, and a half-second block duration. *)
Definition three_blocks : list bytes := [[x01]; [x02]; [x03]].

Definition kw_half_second : kwargs :=
  {| kw_sample_rate := None; kw_dtype := None;
     kw_block_duration := Some (1 # 2) |}.

(** ** The tests of [play] on its source, and what a trace sends *)

Definition is_str (src : source) : bool :=
  match src with SrcStr _ => true | _ => false end.

Definition has_read (src : source) : bool :=
  match src with SrcFileLike _ => true | _ => false end.

Definition is_ndarray (src : source) : bool :=
  match src with SrcArray _ => true | _ => false end.

Definition is_bytes (src : source) : bool :=
  match src with SrcBytes _ => true | _ => false end.

(** [isinstance(src, Iterable)] at line 49 for a source that none of the
    earlier branches has replaced. *)
Definition is_Iterable (src : source) : bool :=
  match src with SrcIterable _ => true | _ => false end.

(** The blocks a trace puts on the output channel, in order. *)
Fixpoint sent (trace : list event) : list bytes :=
  match trace with
  | [] => []
  | Put raw :: rest => raw :: sent rest
  | _ :: rest => sent rest
  end.

(** ** Reading a tone sequence *)

Section ToneReading.

Variable pitch : Type.

(** The pitches of a sequence, nested ones included, in playing order. *)
Fixpoint elem_pitches (e : tone pitch) : list pitch :=
  match e with
  | Pitch x => [x]
  | Phrase l => flat_map elem_pitches l
  end.

Definition pitches (tones : list (tone pitch)) : list pitch :=
  flat_map elem_pitches tones.

(** The time a sequence is meant to fill when each of its elements has a
    beat of [base_beat_ms] and each nesting level halves the beat. *)
Fixpoint elem_beats (e : tone pitch) (base_beat_ms : Q) : Q :=
  match e with
  | Pitch _ => base_beat_ms
  | Phrase l =>
      fold_right (fun e' r => elem_beats e' (base_beat_ms / 2) + r)%Q 0%Q l
  end.

Definition beats (tones : list (tone pitch)) (base_beat_ms : Q) : Q :=
  fold_right (fun e r => elem_beats e base_beat_ms + r)%Q 0%Q tones.

(** Induction on a tone, with the hypothesis for every element of a
    nested sequence. *)
Variable P : tone pitch -> Prop.
Hypothesis P_pitch : forall x, P (Pitch x).
Hypothesis P_phrase : forall l, Forall P l -> P (Phrase l).

Fixpoint tone_nested_ind (e : tone pitch) : P e :=
  match e with
  | Pitch x => P_pitch x
  | Phrase l =>
      P_phrase l
        ((fix all (l : list (tone pitch)) : Forall P l :=
            match l with
            | [] => Forall_nil P
            | e' :: l' => Forall_cons e' (tone_nested_ind e') (all l')
            end) l)
  end.

End ToneReading.

Arguments elem_pitches {pitch} e.
Arguments pitches {pitch} tones.
Arguments elem_beats {pitch} e base_beat_ms.
Arguments beats {pitch} tones base_beat_ms.

(** The smallest rate of the ladder that is at least [c] times the
    frequency [m], the top rate when none is: the rule of the
    specification for a safety margin [c]. *)
Definition ladder_tier (c m : Q) : Z :=
  if Qle_bool (c * m) 16000 then 16000
  else if Qle_bool (c * m) 22050 then 22050
  else 44100.

(** The two errors pydub's [append] raises. *)
Definition crossfade_error (e : exn) : Prop :=
  e = ValueError "Crossfade is longer than the original AudioSegment"
  \/ e = ValueError "Crossfade is longer than the appended AudioSegment".

(** The phrase [[A4, [B4, C5]]], the pitches given in Hz. *)
Definition phrase_A4_B4_C5 : list (tone Q) :=
  [Pitch 440; Phrase [Pitch (49388 # 100); Pitch (52325 # 100)]]%Q.

(** ** The conversion rules as the specification words them *)

Inductive family : Type := FloatFamily | IntFamily | OtherFamily.

Definition dtype_family (dt : string) : family :=
  if startswith dt "float" then FloatFamily
  else if startswith dt "int" then IntFamily
  else OtherFamily.

(** The conversion of a mono array as the specification states it: scale
    and cast from float to int, cast and divide from int to float, and a
    direct cast to the target type within a family. *)
Definition np_convert_as_specified (d : string) (xs : list Q) (dt : string)
  : result (string * list Q) :=
  match dtype_family d, dtype_family dt with
  | FloatFamily, IntFamily =>
      m <- iinfo_max dt ;;
      Ok (dt, astype dt (map (fun x => x * inject_Z m)%Q xs))
  | IntFamily, FloatFamily =>
      m <- iinfo_max d ;;
      Ok (dt, map (fun x => x / inject_Z m)%Q (astype dt xs))
  | _, _ => Ok (dt, astype dt xs)
  end.

(** ** Two concurrent calls of [play] on one Speaker

    asyncio runs one task at a time and may switch tasks at an [await].
    Each call of [play] is a task whose remaining work is the rest of its
    event trace; one step of a task performs its next event.  A task whose
    next event is [LockAcquire] can step only while [self._lock] is free
    ([asyncio.Lock] suspends it otherwise); a step of a blocked or finished
    task leaves the state as it is.  Every event is taken as a possible
    switch point, which allows all the interleavings asyncio does and
    more. *)

Module Scheduler.

Inductive caller : Type := First | Second.

Definition other (c : caller) : caller :=
  match c with First => Second | Second => First end.

Record state : Type := mk_state {
  lock : option caller;             (* the holder of self._lock *)
  rest_first : list event;          (* what the first call has yet to do *)
  rest_second : list event;         (* what the second call has yet to do *)
  channel : list (caller * bytes)   (* the blocks put so far, by caller *)
}.

Definition rest (s : state) (c : caller) : list event :=
  match c with First => rest_first s | Second => rest_second s end.

Definition update (s : state) (c : caller) (l : option caller)
    (r : list event) (ch : list (caller * bytes)) : state :=
  match c with
  | First => mk_state l r (rest_second s) ch
  | Second => mk_state l (rest_first s) r ch
  end.

(** One step of the task of caller [c]. *)
Definition exec (c : caller) (s : state) : state :=
  match rest s c with
  | [] => s
  | LockAcquire :: r =>
      match lock s with
      | None => update s c (Some c) r (channel s)
      | Some _ => s
      end
  | LockRelease :: r => update s c None r (channel s)
  | Put raw :: r => update s c (lock s) r (channel s ++ [(c, raw)])
  | _ :: r => update s c (lock s) r (channel s)
  end.

Definition init (first second : list event) : state :=
  mk_state None first second [].

(** The state after the scheduler has given the turns of [schedule]. *)
Definition run (schedule : list caller) (s : state) : state :=
  fold_left (fun s c => exec c s) schedule s.

Definition tag (c : caller) (blocks : list bytes) : list (caller * bytes) :=
  map (pair c) blocks.

(** The channel holds blocks of the call [c] only, or all the blocks of
    [c] followed by blocks of the other call: the two streams are not
    interleaved. *)
Definition serialized (ch : list (caller * bytes))
    (blocks : caller -> list bytes) : Prop :=
  exists (c : caller) (n : nat),
    ch = tag c (firstn n (blocks c))
    \/ ch = tag c (blocks c) ++ tag (other c) (firstn n (blocks (other c))).

Definition is_lock_event (e : event) : bool :=
  match e with LockAcquire | LockRelease => true | _ => false end.

(** A trace that is empty or takes the lock first, releases it last and
    does not touch it in between. *)
Definition critical (trace body : list event) : Prop :=
  (trace = [] /\ body = []
   \/ trace = LockAcquire :: body ++ [LockRelease])
  /\ forallb (fun e => negb (is_lock_event e)) body = true.

(** *** Where a run stands

    [prog c] is the trace of the call of [c], [body c] what it does
    between taking and releasing the lock. *)

Section Progress.

Variables prog body : caller -> list event.

(** A call that is not in its critical section has not started or has
    finished; the list is what it has put on the channel. *)
Inductive at_ (s : state) (c : caller) : list bytes -> Prop :=
| unstarted : rest s c = prog c -> at_ s c []
| finished : rest s c = [] -> at_ s c (sent (body c)).

(** A call in its critical section has done a part [done] of its body. *)
Inductive inside (s : state) (c : caller) : list bytes -> Prop :=
| inside_intro (done todo : list event) :
    body c = done ++ todo ->
    rest s c = todo ++ [LockRelease] ->
    inside s c (sent done).

(** Either the lock is free and no call is in its critical section, or
    one call is in its critical section and holds the lock, the other
    having not started or having finished before it. *)
Inductive inv (s : state) : Prop :=
| inv_free (c : caller) (o1 o2 : list bytes) :
    lock s = None -> at_ s c o1 -> at_ s (other c) o2 ->
    channel s = tag c o1 ++ tag (other c) o2 -> inv s
| inv_held (c : caller) (o o' : list bytes) :
    lock s = Some c -> inside s c o -> at_ s (other c) o' ->
    channel s = tag (other c) o' ++ tag c o -> inv s.

End Progress.

End Scheduler.

(** ** Text to speech: [say] *)

(** A value held by a keyword argument or an attribute. *)
Inductive pyval : Type :=
| VStr (s : string)
| VInt (n : Z).

(** A dict with string keys, in insertion order, one entry per key. *)
Definition dict : Type := list (string * pyval).

Fixpoint dict_get (d : dict) (k : string) : option pyval :=
  match d with
  | [] => None
  | (k', v) :: rest => if String.eqb k k' then Some v else dict_get rest k
  end.

(** [d[k] = v], and [setattr(obj, k, v)] on the attributes of an object. *)
Fixpoint dict_set (d : dict) (k : string) (v : pyval) : dict :=
  match d with
  | [] => [(k, v)]
  | (k', v') :: rest =>
      if String.eqb k k' then (k, v) :: rest else (k', v') :: dict_set rest k v
  end.

(** [d.update(o)], and [for k, v in o.items(): setattr(obj, k, v)]. *)
Definition dict_update (d o : dict) : dict :=
  fold_left (fun d kv => dict_set d (fst kv) (snd kv)) o d.

(** A [str] is a sequence of code points. *)
Definition text : Type := list Z.

(** The character class of the pattern, U+4E00 to U+9FFF. *)
Definition is_cjk (c : Z) : bool := (19968 <=? c) && (c <=? 40959).

(** [re.findall(r'[...]+', txt)] for a character class [p]: the maximal
    runs of characters of the class, from left to right; [run] holds the
    run being read, last character first. *)
Fixpoint findall_runs (p : Z -> bool) (txt : text) (run : text) : list text :=
  match txt with
  | [] => match run with [] => [] | _ :: _ => [rev run] end
  | c :: rest =>
      if p c then findall_runs p rest (c :: run)
      else
        match run with
        | [] => findall_runs p rest []
        | _ :: _ => rev run :: findall_runs p rest []
        end
  end.

Definition findall (p : Z -> bool) (txt : text) : list text :=
  findall_runs p txt [].

Section Say.

Variable sample_width : string -> Z.
Variable float_tobytes : string -> Q -> bytes.
Variable frame_mean : string -> string -> list Q -> Q.
Variable np : numpy.
Variable file_sr_bs_gen :
  source -> Z -> string -> Q -> result (Z * Z * result (list bytes)).

(** The attributes of a fresh [ESpeakNG()]. *)
Variable ESpeakNG : dict.

(** [self._esng.synth_wav(txt)] for an engine with the given attributes:
    the WAV file espeak-ng writes. *)
Variable synth_wav : dict -> text -> result bytes.

(** [wave.open(io.BytesIO(wav_data))] read to the end: [f.getframerate()]
    and [f.readframes(f.getnframes())]. *)
Variable wave_read : bytes -> result (Z * bytes).

(** Lines 83-89: the engine [say] synthesizes with; [esng] is
    [self._esng], [None] before the first call. *)
Definition say_engine (esng : option dict) (txt : text) (options : dict)
  : dict :=
  let esng := match esng with Some e => e | None => ESpeakNG end in
  let op :=
    [("voice"%string,
      VStr match findall is_cjk txt with [] => "en" | _ :: _ => "zh" end)] in
  let op := dict_update op options in
  dict_update esng op.

(** [say] returns the engine it leaves in [self._esng] and what it did. *)
Definition say (self : Speaker) (esng : option dict) (txt : text)
    (repeat : Z) (options : dict) : dict * (list event * result unit) :=
  let esng := say_engine esng txt options in
  match synth_wav esng txt with
  | Err e => (esng, ([], Err e))
  | Ok wav_data =>
      match wave_read wav_data with
      | Err e => (esng, ([], Err e))
      | Ok (framerate, frames) =>
          (esng,
           play sample_width float_tobytes frame_mean np file_sr_bs_gen self
                (SrcBytes frames) repeat 1%Q
                {| kw_sample_rate := Some framerate;
                   kw_dtype := Some "int16"%string;
                   kw_block_duration := None |})
      end
  end.

End Say.

(** The voice [say] picks by itself: Chinese when the text holds a
    character of the class, English otherwise. *)
Definition auto_voice (txt : text) : pyval :=
  VStr (if existsb is_cjk txt then "zh" else "en").

(** For the examples: an engine with two attributes, a synthesizer that
    writes four zero bytes per character, and a reader that takes them as
    frames at 22050 Hz. *)
Definition ESpeakNG_example : dict :=
  [("voice"%string, VStr "en-us"); ("pitch"%string, VInt 50)].

Definition synth_wav_example (esng : dict) (txt : text) : result bytes :=
  Ok (concat (map (fun _ => [x00; x00; x00; x00]) txt)).

Definition wave_read_example (wav : bytes) : result (Z * bytes) :=
  Ok (22050, wav).

Definition say_example : Speaker -> option dict -> text -> Z -> dict
                         -> dict * (list event * result unit) :=
  say sample_width_pcm float_tobytes_zero frame_mean_exact np_exact
      file_sr_bs_gen_absent ESpeakNG_example synth_wav_example
      wave_read_example.

(** ** File sources: [file_sr_bs_gen] *)

(** What [sf.SoundFile(src)] does: it opens the file and reports its
    sample rate, or raises [RuntimeError] (a format libsndfile does not
    read), or raises something else. *)
Inductive sf_outcome : Type :=
| SfOpened (samplerate : Z)
| SfRuntimeError (msg : string)
| SfRaised (e : exn).

(** The name of a file on disk, or the bytes fetched from a URL. *)
Inductive file_ref : Type :=
| OnDisk (name : string)
| InMemory (data : bytes).

(** The libraries [file_sr_bs_gen] decodes with. *)
Record decoders : Type := mk_decoders {
  (* urlopen(src).read() *)
  urlopen_read : string -> result bytes;
  (* sf.SoundFile(src) *)
  sf_SoundFile : file_ref -> sf_outcome;
  (* the blocks of file.blocks(dtype=dt, blocksize=bs, fill_value=0), each
     down-mixed to mono and turned into bytes *)
  sf_blocks : file_ref -> string -> Z -> result (list bytes);
  (* librosa.get_samplerate(src) *)
  librosa_get_samplerate : file_ref -> result Z;
  (* the samples of librosa.load(src, sr=sr, mono=True): float32 samples
     at the rate asked for, at the rate of the file for sr=None *)
  librosa_load : file_ref -> option Z -> result (list Q)
}.

Section FileSource.

Variable sample_width : string -> Z.
Variable float_tobytes : string -> Q -> bytes.
Variable frame_mean : string -> string -> list Q -> Q.
Variable np : numpy.
Variable lib : decoders.

(** Lines 151-158: the [except (AssertionError, RuntimeError)] branch. *)
Definition file_fallback (src : file_ref) (sr : Z) (dt : string)
    (block_duration : Q) : result (Z * Z * result (list bytes)) :=
  native <- librosa_get_samplerate lib src ;;
  let sr' := if native <? sr then None else Some sr in
  y <- librosa_load lib src sr' ;;
  let sr := match sr' with None => native | Some s => s end in
  let bs := py_int (inject_Z sr * block_duration) in
  Ok (sr, bs,
      np_gen sample_width float_tobytes frame_mean np (Array1 "float32" y)
             dt bs).

(** Lines 144-158 once [src] is a file name or a buffer. *)
Definition file_decode (src : file_ref) (sr : Z) (dt : string)
    (block_duration : Q) : result (Z * Z * result (list bytes)) :=
  match sf_SoundFile lib src with
  | SfOpened samplerate =>
      if samplerate <=? sr then
        let bs := py_int (block_duration * inject_Z samplerate) in
        Ok (samplerate, bs, sf_blocks lib src dt bs)
      else file_fallback src sr dt block_duration
  | SfRuntimeError _ => file_fallback src sr dt block_duration
  | SfRaised e => Err e
  end.

(** [file_sr_bs_gen(src, sr, dt, block_duration)] on the sources [play]
    hands it.  A file object (something with [read]) has no [startswith]:
    line 139 raises [AttributeError] on it. *)
Definition file_sr_bs_gen (src : source) (sr : Z) (dt : string)
    (block_duration : Q) : result (Z * Z * result (list bytes)) :=
  match src with
  | SrcStr name =>
      if startswith name "http" then
        data <- urlopen_read lib name ;;
        file_decode (InMemory data) sr dt block_duration
      else file_decode (OnDisk name) sr dt block_duration
  | SrcFileLike _ =>
      Err (OtherError "AttributeError: object has no attribute 'startswith'")
  | _ => Err (TypeError "file_sr_bs_gen: not a file source")
  end.

(** [play] with [file_sr_bs_gen] in place. *)
Definition play_files : Speaker -> source -> Z -> Q -> kwargs
                        -> list event * result unit :=
  play sample_width float_tobytes frame_mean np file_sr_bs_gen.

End FileSource.

(** Decoders for the examples: [cd.wav] is a 44.1 kHz file and [voice.wav]
    a 16 kHz file that soundfile opens; anything else is a 44.1 kHz file
    that only librosa reads; every file holds two samples of silence and
    nothing can be fetched. *)
Definition lib_example : decoders :=
  {| urlopen_read := fun _ => Err (OtherError "URLError");
     sf_SoundFile := fun f =>
       match f with
       | OnDisk name =>
           if String.eqb name "cd.wav" then SfOpened 44100
           else if String.eqb name "voice.wav" then SfOpened 16000
           else SfRuntimeError "Format not recognised."
       | InMemory _ => SfRuntimeError "Format not recognised."
       end;
     sf_blocks := fun _ _ _ => Ok [];
     librosa_get_samplerate := fun _ => Ok 44100;
     librosa_load := fun _ _ => Ok [0; 0]%Q |}.

(** ** What a trace announces *)

(** The stream formats a trace announces. *)
Fixpoint formats (trace : list event) : list (Z * string * Z) :=
  match trace with
  | [] => []
  | SetFormat sr dt bs :: rest => (sr, dt, bs) :: formats rest
  | _ :: rest => formats rest
  end.

Definition is_put_or_sleep (e : event) : bool :=
  match e with Put _ | Sleep _ => true | _ => false end.

(** * Properties *)

(** ** Lists and slices *)

Lemma len_nonneg {A : Type} (l : list A) : 0 <= len l.
Proof. unfold len. lia. Qed.

Lemma len_app {A : Type} (l1 l2 : list A) : len (l1 ++ l2) = len l1 + len l2.
Proof. unfold len. rewrite length_app. lia. Qed.

Lemma firstn_add {A : Type} (m n : nat) (l : list A) :
  firstn (m + n) l = firstn m l ++ firstn n (skipn m l).
Proof.
  revert l. induction m as [|m IH]; intros l; [reflexivity|].
  destruct l as [|x l]; simpl.
  - now rewrite firstn_nil.
  - now rewrite IH.
Qed.

Lemma bytes_mul_repeat (x : byte) (n : Z) :
  bytes_mul [x] n = repeat x (Z.to_nat n).
Proof.
  unfold bytes_mul. induction (Z.to_nat n) as [|k IH]; simpl; congruence.
Qed.

(** Inside the buffer a slice is a [skipn] followed by a [firstn]. *)
Lemma py_slice_window {A : Type} (data : list A) (i w : Z) :
  0 <= i <= len data -> 0 <= w ->
  py_slice data i (i + w) = firstn (Z.to_nat w) (skipn (Z.to_nat i) data).
Proof.
  intros Hi Hw. unfold py_slice, clamp_index.
  destruct (Z.ltb_spec i 0); [lia|].
  destruct (Z.ltb_spec (i + w) 0); [lia|].
  rewrite (Z.min_l i) by lia.
  destruct (Z.le_gt_cases (i + w) (len data)) as [Hin|Hout].
  - rewrite Z.min_l by lia. f_equal. lia.
  - rewrite Z.min_r by lia.
    rewrite !firstn_all2; [reflexivity| |];
      rewrite length_skipn; unfold len in *; lia.
Qed.

Section RawGenFacts.

Variable sample_width : string -> Z.

Lemma raw_gen_unfold (data : bytes) (dt : string) (bs : Z) :
  0 < bs * sample_width dt ->
  raw_gen sample_width data dt bs =
  Ok (map (fun k => block_at data (bs * sample_width dt)
                             (Z.of_nat k * (bs * sample_width dt)))
          (seq 0 (Z.to_nat ((len data + bs * sample_width dt - 1)
                            / (bs * sample_width dt))))).
Proof.
  intros HB. unfold raw_gen, py_range.
  set (B := bs * sample_width dt) in *.
  destruct (Z.eqb_spec B 0); [lia|]. cbn [bind].
  rewrite map_map. f_equal.
  assert (Hlen : range_len 0 (len data) B = (len data + B - 1) / B).
  { unfold range_len. destruct (Z.ltb_spec 0 B); [|lia].
    pose proof (len_nonneg data).
    destruct (Z.ltb_spec 0 (len data)).
    - replace (len data + B - 1) with (len data - 0 - 1 + 1 * B) by lia.
      rewrite Z.div_add by lia. reflexivity.
    - replace (len data) with 0 by lia.
      symmetry. apply Z.div_small. lia. }
  rewrite Hlen. apply map_ext. intros k. reflexivity.
Qed.

(** A window that lies inside the buffer is emitted as it is. *)
Lemma block_at_full (data : bytes) (B : Z) (k : nat) :
  0 < B -> (Z.of_nat k + 1) * B <= len data ->
  block_at data B (Z.of_nat k * B) =
  firstn (Z.to_nat B) (skipn (k * Z.to_nat B) data).
Proof.
  intros HB Hk. unfold block_at.
  rewrite py_slice_window by nia.
  replace (Z.to_nat (Z.of_nat k * B)) with (k * Z.to_nat B)%nat by nia.
  assert (Hl : len (firstn (Z.to_nat B) (skipn (k * Z.to_nat B) data)) = B).
  { unfold len. rewrite length_firstn, length_skipn. unfold len in Hk. nia. }
  rewrite Hl, Z.ltb_irrefl. reflexivity.
Qed.

(** The full windows reproduce the prefix of the buffer they cover. *)
Lemma full_blocks_concat (data : bytes) (B : Z) (q : nat) :
  0 < B -> Z.of_nat q * B <= len data ->
  concat (map (fun k => block_at data B (Z.of_nat k * B)) (seq 0 q)) =
  firstn (q * Z.to_nat B) data.
Proof.
  intros HB. induction q as [|q IH]; intros Hq; [reflexivity|].
  rewrite seq_S, map_app, concat_app. cbn [map concat Nat.add].
  rewrite IH by nia. rewrite app_nil_r.
  rewrite block_at_full by nia.
  replace (S q * Z.to_nat B)%nat with (q * Z.to_nat B + Z.to_nat B)%nat
    by lia.
  now rewrite firstn_add.
Qed.

(** The last window, when the buffer stops inside it, is completed with
    zero bytes. *)
Lemma block_at_partial (data : bytes) (B : Z) (q : nat) :
  0 < B -> Z.of_nat q * B < len data < (Z.of_nat q + 1) * B ->
  block_at data B (Z.of_nat q * B) =
  skipn (q * Z.to_nat B) data
    ++ repeat x00 (Z.to_nat ((Z.of_nat q + 1) * B - len data)).
Proof.
  intros HB Hq. unfold block_at.
  rewrite py_slice_window by nia.
  replace (Z.to_nat (Z.of_nat q * B)) with (q * Z.to_nat B)%nat by nia.
  rewrite firstn_all2 by (rewrite length_skipn; unfold len in Hq; nia).
  assert (Hl : len (skipn (q * Z.to_nat B) data)
               = len data - Z.of_nat q * B).
  { unfold len. rewrite length_skipn. unfold len in Hq. nia. }
  rewrite Hl. destruct (Z.ltb_spec (len data - Z.of_nat q * B) B); [|lia].
  rewrite bytes_mul_repeat. do 2 f_equal. lia.
Qed.

Lemma block_at_length (data : bytes) (B : Z) (k : nat) :
  0 < B -> Z.of_nat k * B <= len data ->
  len (block_at data B (Z.of_nat k * B)) = B.
Proof.
  intros HB Hk. unfold block_at.
  destruct (Z.ltb_spec (len (py_slice data (Z.of_nat k * B)
                                      (Z.of_nat k * B + B))) B) as [Hlt|Hge].
  - rewrite len_app, bytes_mul_repeat. unfold len at 2.
    rewrite repeat_length. lia.
  - rewrite py_slice_window in * by nia.
    unfold len in *. rewrite length_firstn in *. lia.
Qed.

End RawGenFacts.

(** ** C2: chunking and zero padding *)

(** C2.  For every byte buffer [data] and every positive block size, the
    chunking step [raw_gen] returns blocks whose concatenation is [data]
    followed by just enough zero bytes to reach the next multiple of the
    block length [bs * sample_width dt], and every block, the last one
    included, has exactly that length. *)
Theorem raw_gen_blocks_zero_padded
    (sample_width : string -> Z) (data : bytes) (dt : string) (bs : Z) :
  0 < bs -> 0 < sample_width dt ->
  exists blocks : list bytes,
    raw_gen sample_width data dt bs = Ok blocks
    /\ concat blocks =
       data ++ repeat x00
                 (Z.to_nat ((- len data) mod (bs * sample_width dt)))
    /\ Forall (fun b => len b = bs * sample_width dt) blocks.
Proof.
  intros Hbs Hw.
  assert (HB : 0 < bs * sample_width dt) by nia.
  rewrite raw_gen_unfold by exact HB.
  set (B := bs * sample_width dt) in *.
  eexists. split; [reflexivity|].
  pose proof (len_nonneg data) as Hn.
  pose proof (Z.div_mod (len data) B ltac:(lia)) as Hdm.
  pose proof (Z.mod_pos_bound (len data) B HB) as Hr.
  set (q := len data / B) in *. set (r := len data mod B) in *.
  assert (Hq : 0 <= q) by (apply Z.div_pos; lia).
  clearbody q r B.
  assert (Hqn : Z.of_nat (Z.to_nat q) = q) by lia.
  split.
  - destruct (Z.eq_dec r 0) as [Hr0|Hr0].
    + assert (HN : (len data + B - 1) / B = q).
      { symmetry. apply (Z.div_unique _ _ _ (B - 1)); lia. }
      assert (Hpad : (- len data) mod B = 0).
      { symmetry. apply (Z.mod_unique _ _ (- q)); lia. }
      rewrite HN, Hpad. cbn [Z.to_nat repeat]. rewrite app_nil_r.
      rewrite (full_blocks_concat data B (Z.to_nat q)) by (rewrite ?Hqn; lia).
      apply firstn_all2. unfold len in *. nia.
    + assert (HN : (len data + B - 1) / B = q + 1).
      { symmetry. apply (Z.div_unique _ _ _ (r - 1)); lia. }
      assert (Hpad : (- len data) mod B = B - r).
      { symmetry. apply (Z.mod_unique _ _ (- q - 1)); lia. }
      rewrite HN, Hpad.
      replace (Z.to_nat (q + 1)) with (S (Z.to_nat q)) by lia.
      rewrite seq_S, map_app, concat_app. cbn [map concat Nat.add].
      rewrite (full_blocks_concat data B (Z.to_nat q)) by (rewrite ?Hqn; lia).
      rewrite app_nil_r, block_at_partial by (rewrite ?Hqn; lia).
      rewrite app_assoc, firstn_skipn, Hqn. do 2 f_equal. lia.
  - apply Forall_forall. intros b Hb.
    apply in_map_iff in Hb. destruct Hb as [k [<- Hk]].
    apply in_seq in Hk. apply block_at_length; [exact HB|].
    assert (HN : (len data + B - 1) / B < q + 2).
    { apply Z.div_lt_upper_bound; lia. }
    assert (HN' : (len data + B - 1) / B * B <= len data + B - 1).
    { rewrite Z.mul_comm. apply Z.mul_div_le. lia. }
    nia.
Qed.

(** The hypotheses of C2 hold for 16-bit samples and a five-byte buffer. *)
Lemma raw_gen_blocks_zero_padded_witness :
  0 < 1 /\ 0 < sample_width_pcm "int16" /\
  exists blocks : list bytes,
    raw_gen sample_width_pcm ["a"; "b"; "c"; "d"; "e"]%byte "int16" 1
    = Ok blocks
    /\ concat blocks =
       ["a"; "b"; "c"; "d"; "e"]%byte
         ++ repeat x00
              (Z.to_nat ((- len ["a"; "b"; "c"; "d"; "e"]%byte)
                         mod (1 * sample_width_pcm "int16")))
    /\ Forall (fun b => len b = 1 * sample_width_pcm "int16") blocks.
Proof.
  split; [lia|]. split; [reflexivity|].
  apply (raw_gen_blocks_zero_padded sample_width_pcm
           ["a"; "b"; "c"; "d"; "e"]%byte "int16" 1); [lia|reflexivity].
Defined.

(** ** C10: empty input *)

Lemma raw_gen_nil (sample_width : string -> Z) (dt : string) (bs : Z) :
  bs * sample_width dt <> 0 -> raw_gen sample_width [] dt bs = Ok [].
Proof.
  intros HB. unfold raw_gen, py_range.
  destruct (Z.eqb_spec (bs * sample_width dt) 0) as [|_]; [contradiction|].
  cbn [bind]. unfold range_len, len. cbn [length Z.of_nat].
  destruct (0 <? bs * sample_width dt); reflexivity.
Qed.

(** ** C3: the repeat expander *)

Module TeeFacts.

Import Tee.

Lemma nth_error_skipn_cons {A : Type} (l : list A) (c : nat) (x : A) :
  nth_error l c = Some x -> skipn c l = x :: skipn (S c) l.
Proof.
  revert c. induction l as [|y l IH]; intros [|c] H; try discriminate.
  - injection H as ->. reflexivity.
  - cbn [nth_error] in H. rewrite (skipn_cons c y l). now apply IH.
Qed.

(** Draining a view yields what is left of the spine after its cursor,
    then everything the underlying iterator still holds, which ends up
    on the spine. *)
Lemma drain_spec (fuel : nat) (st : state) (c : nat) :
  (c <= length (spine st))%nat ->
  (length (spine st) + length (source st) - c <= fuel)%nat ->
  drain fuel st c =
  (skipn c (spine st) ++ source st,
   {| source := []; spine := spine st ++ source st |}).
Proof.
  revert st c. induction fuel as [|fuel IH]; intros [src sp] c Hc Hf;
    cbn [spine source] in *.
  - assert (src = []) as -> by (destruct src; [reflexivity|simpl in Hf; lia]).
    assert (c = length sp) as -> by (simpl in Hf; lia).
    cbn [drain]. now rewrite skipn_all, !app_nil_r.
  - cbn [drain]. unfold next. cbn [spine source].
    destruct (nth_error sp c) as [b|] eqn:Hnth.
    + assert (Hlt : (c < length sp)%nat)
        by (apply nth_error_Some; congruence).
      rewrite IH by (cbn [spine source]; lia). cbn [spine source].
      now rewrite (nth_error_skipn_cons sp c b Hnth).
    + apply nth_error_None in Hnth.
      assert (c = length sp) as -> by lia.
      rewrite skipn_all. destruct src as [|b rest].
      * now rewrite !app_nil_r.
      * assert (Hl : length (sp ++ [b]) = S (length sp))
          by (rewrite length_app; cbn [length]; lia).
        rewrite IH; cbn [spine source length] in *; [|lia|lia].
        rewrite <- Hl, skipn_all, <- app_assoc. reflexivity.
Qed.

Lemma yield_from_spec (st : state) (c : nat) :
  (c <= length (spine st))%nat ->
  yield_from st c =
  (skipn c (spine st) ++ source st,
   {| source := []; spine := spine st ++ source st |}).
Proof. intros Hc. unfold yield_from. apply drain_spec; [exact Hc|lia]. Qed.

(** Once the iterator is exhausted every fresh view replays the spine. *)
Lemma chain_replay (items : list bytes) (n : nat) :
  chain {| source := []; spine := items |} (repeat O n) =
  concat (repeat items n).
Proof.
  induction n as [|n IH]; [reflexivity|].
  cbn [repeat chain concat]. rewrite yield_from_spec by (simpl; lia).
  cbn [spine source skipn]. now rewrite !app_nil_r, IH.
Qed.

Lemma chain_fresh (items : list bytes) (n : nat) :
  chain {| source := items; spine := [] |} (repeat O n) =
  concat (repeat items n).
Proof.
  destruct n as [|n]; [reflexivity|].
  cbn [repeat chain concat]. rewrite yield_from_spec by (simpl; lia).
  cbn [spine source skipn app]. now rewrite chain_replay.
Qed.

End TeeFacts.

Lemma repeat_gen_ok (items : list bytes) (n : Z) :
  0 <= n -> repeat_gen (Ok items) n = Ok (concat (repeat items (Z.to_nat n))).
Proof.
  intros Hn. unfold repeat_gen.
  destruct (Z.eqb_spec n 1) as [->|Hn1].
  - change (Z.to_nat 1) with 1%nat. cbn [repeat concat].
    now rewrite app_nil_r.
  - unfold Tee.tee. destruct (Z.ltb_spec n 0); [lia|]. cbn [bind].
    destruct (repeat O (Z.to_nat n)) as [|c views] eqn:Hviews.
    + destruct (Z.to_nat n); [reflexivity|discriminate].
    + rewrite <- Hviews. now rewrite TeeFacts.chain_fresh.
Qed.

Lemma length_concat_repeat {A : Type} (l : list A) (n : nat) :
  length (concat (repeat l n)) = (n * length l)%nat.
Proof.
  induction n as [|n IH]; [reflexivity|].
  cbn [repeat concat]. rewrite length_app, IH. lia.
Qed.

(** C3.  For every finite block sequence [seq] and every [n >= 1],
    [repeat_gen] yields [seq] followed by itself [n] times in all, block
    for block, which makes [n * len seq] blocks; and with [n = 1] it hands
    back the generator it was given, whatever that generator does. *)
Theorem repeat_gen_concatenates (seq : list bytes) (n : Z) :
  1 <= n ->
  repeat_gen (Ok seq) n = Ok (concat (repeat seq (Z.to_nat n)))
  /\ len (concat (repeat seq (Z.to_nat n))) = n * len seq
  /\ (forall gen : result (list bytes), repeat_gen gen 1 = gen).
Proof.
  intros Hn. split; [apply repeat_gen_ok; lia|]. split.
  - unfold len. rewrite length_concat_repeat. nia.
  - intros gen. reflexivity.
Qed.

Lemma repeat_gen_concatenates_witness :
  1 <= 3 /\
  repeat_gen (Ok [["a"]; ["b"; "c"]]%byte) 3
  = Ok [["a"]; ["b"; "c"]; ["a"]; ["b"; "c"]; ["a"]; ["b"; "c"]]%byte.
Proof.
  split; [lia|].
  exact (proj1 (repeat_gen_concatenates [["a"]; ["b"; "c"]]%byte 3
                  ltac:(lia))).
Defined.

(** ** C1: pacing *)

Lemma Qltb_true (a b : Q) : Qltb a b = true <-> (a < b)%Q.
Proof.
  unfold Qltb. destruct (Qlt_le_dec a b) as [H|H]; split; intros H';
    try reflexivity; try assumption; try discriminate.
  exfalso. exact (Qlt_not_le _ _ H' H).
Qed.

(** The first hit of [find] on an interval: nothing before it satisfies
    the test. *)
Lemma find_seq_first (f : nat -> bool) (n : nat) :
  forall s k : nat,
    find f (seq s n) = Some k ->
    (s <= k < s + n)%nat /\ f k = true
    /\ forall i : nat, (s <= i < k)%nat -> f i = false.
Proof.
  induction n as [|n IH]; intros s k; cbn [seq find]; [discriminate|].
  destruct (f s) eqn:Hs.
  - intros [= <-]. repeat split; [lia | lia | exact Hs | lia].
  - intros H. destruct (IH (S s) k H) as (Hk & Hf & Hfirst).
    repeat split; [lia | lia | exact Hf |].
    intros i Hi. destruct (Nat.eq_dec i s) as [-> | Hne]; [exact Hs|].
    apply Hfirst. lia.
Qed.

Lemma find_seq_none (f : nat -> bool) (n s : nat) :
  find f (seq s n) = None ->
  forall i : nat, (s <= i < s + n)%nat -> f i = false.
Proof.
  intros H i Hi. apply (find_none f (seq s n) H). apply in_seq. lia.
Qed.

Section Pacing.

Variables bd preload : Q.

#[local] Abbreviation below k :=
  (SFltb (count_binary64 bd k) (binary64 preload)).

(** [burst n] is at most [n]; the sums before it are below [preload], and
    the sum at it is not, unless the blocks run out first. *)
Lemma burst_spec (n : nat) :
  (burst bd preload n <= n)%nat
  /\ (forall j : nat, (j < burst bd preload n)%nat -> below j = true)
  /\ ((burst bd preload n < n)%nat -> below (burst bd preload n) = false).
Proof.
  unfold burst.
  destruct (find _ (seq 0 n)) as [k|] eqn:Hfind.
  - apply find_seq_first in Hfind. destruct Hfind as (Hk & Hf & Hfirst).
    repeat split; [lia | |].
    + intros j Hj. specialize (Hfirst j ltac:(lia)).
      now apply negb_false_iff in Hfirst.
    + intros _. now apply negb_true_iff in Hf.
  - repeat split; [lia | | lia].
    intros j Hj. pose proof (find_seq_none _ n 0 Hfind j ltac:(lia)) as H.
    now apply negb_false_iff in H.
Qed.

Lemma burst_unique (n k : nat) :
  (k <= n)%nat ->
  (forall j : nat, (j < k)%nat -> below j = true) ->
  ((k < n)%nat -> below k = false) ->
  burst bd preload n = k.
Proof.
  intros Hk Hbelow Hstop.
  destruct (burst_spec n) as (Hb & Hb1 & Hb2).
  destruct (Nat.lt_trichotomy (burst bd preload n) k) as [Hlt | [Heq | Hgt]];
    [|exact Heq|].
  - rewrite Hbelow in Hb2 by exact Hlt. discriminate Hb2. lia.
  - rewrite Hb1 in Hstop by exact Hgt. discriminate Hstop. lia.
Qed.

(** Once a push is followed by a wait, [count] no longer moves, and every
    later push is followed by a wait. *)
Lemma pace_frozen (count : spec_float) (blocks : list bytes) :
  SFltb count (binary64 preload) = false ->
  pace bd preload count blocks = burst_then_paced 0 bd blocks.
Proof.
  intros Hc. unfold burst_then_paced. cbn [firstn map skipn app].
  induction blocks as [|raw rest IH]; [reflexivity|].
  cbn [pace flat_map app]. now rewrite Hc, IH.
Qed.

(** After [j] blocks pushed without a wait, [count] is the sum of [j]
    durations, and the rest of the loop does what [burst] says. *)
Lemma pace_from (blocks : list bytes) :
  forall j : nat,
    (forall i : nat, (i < j)%nat -> below i = true) ->
    pace bd preload (count_binary64 bd j) blocks
    = burst_then_paced (burst bd preload (j + length blocks) - j) bd blocks.
Proof.
  induction blocks as [|raw rest IH]; intros j Hj.
  - unfold burst_then_paced. now rewrite firstn_nil, skipn_nil.
  - cbn [length]. destruct (below j) eqn:Hbelow.
    + assert (HSj : forall i : nat, (i < S j)%nat -> below i = true).
      { intros i Hi. destruct (Nat.eq_dec i j) as [-> | Hne];
          [exact Hbelow | apply Hj; lia]. }
      destruct (burst_spec (j + S (length rest))) as (Hb & _ & Hb2).
      assert (Hge : (S j <= burst bd preload (j + S (length rest)))%nat).
      { destruct (Nat.le_gt_cases (S j) (burst bd preload
                                               (j + S (length rest))))
          as [H | H]; [exact H|].
        assert (Hlt : (burst bd preload (j + S (length rest))
                       < j + S (length rest))%nat) by lia.
        specialize (Hb2 Hlt). rewrite HSj in Hb2 by exact H.
        discriminate Hb2. }
      cbn [pace]. rewrite Hbelow.
      change (float_add (count_binary64 bd j) (binary64 bd))
        with (count_binary64 bd (S j)).
      rewrite (IH (S j) HSj).
      replace (S j + length rest)%nat with (j + S (length rest))%nat by lia.
      destruct (burst bd preload (j + S (length rest)) - j)%nat
        as [|m] eqn:Hm; [lia|].
      replace (burst bd preload (j + S (length rest)) - S j)%nat
        with m by lia.
      reflexivity.
    + rewrite (pace_frozen _ _ Hbelow).
      rewrite (burst_unique (j + S (length rest)) j);
        [now rewrite Nat.sub_diag | lia | exact Hj | intros _; exact Hbelow].
Qed.

End Pacing.

Lemma stream_ok (sr : Z) (dt : string) (bs : Z) (bd preload : Q)
    (gen : result (list bytes)) (repeat : Z) (blocks : list bytes) :
  repeat_gen gen repeat = Ok blocks ->
  stream sr dt bs bd preload gen repeat =
  ([LockAcquire; SetFormat sr dt bs; StreamOpen]
     ++ pace bd preload (S754_zero false) blocks
     ++ [StreamClose; LockRelease], Ok tt).
Proof. intros H. unfold stream. now rewrite H. Qed.

Lemma sent_burst_then_paced (n : nat) (bd : Q) (blocks : list bytes) :
  sent (burst_then_paced n bd blocks) = blocks.
Proof.
  unfold burst_then_paced. revert n.
  induction blocks as [|raw rest IH]; intros [|n];
    cbn [firstn skipn map flat_map app sent]; try reflexivity.
  - f_equal. exact (IH O).
  - f_equal. exact (IH n).
Qed.

Lemma sent_bracket (sr : Z) (dt : string) (bs : Z) (mid : list event) :
  sent ([LockAcquire; SetFormat sr dt bs; StreamOpen]
          ++ mid ++ [StreamClose; LockRelease])
  = sent mid.
Proof.
  cbn [app sent]. induction mid as [|e mid IH]; [reflexivity|].
  destruct e; cbn [app sent]; now rewrite IH.
Qed.

(** The streaming phase pushes its blocks as [burst] says. *)
Lemma stream_paced (sr : Z) (dt : string) (bs : Z) (bd preload : Q)
    (gen : result (list bytes)) (repeat : Z) :
  let trace := fst (stream sr dt bs bd preload gen repeat) in
  trace
  = [LockAcquire; SetFormat sr dt bs; StreamOpen]
      ++ burst_then_paced (burst bd preload (length (sent trace))) bd
                          (sent trace)
      ++ [StreamClose; LockRelease].
Proof.
  unfold stream. destruct (repeat_gen gen repeat) as [blocks|e]; cbn [fst].
  - pose proof (pace_from bd preload blocks O ltac:(intros i Hi; lia))
      as Hpace.
    cbn [count_binary64 Nat.add] in Hpace. rewrite Nat.sub_0_r in Hpace.
    rewrite Hpace, sent_bracket, sent_burst_then_paced. reflexivity.
  - reflexivity.
Qed.

(** C1, amended.  [preload] is compared with the summed durations of the
    blocks already pushed, added up in floating point as the loop does,
    not with their number.  Whatever the source and [repeat], a call of
    [play] that streams pushes its blocks back to back as long as that sum
    is below [preload]; from the first push at which it is not, every push
    is followed by a wait of [0.95 * bd] seconds.  With half-second blocks
    and [preload = 1] two blocks go out before the first wait; with the
    default [bd = 0.1] eleven do, ten additions of [0.1] giving
    [0.9999999999999999]. *)
Theorem play_preload_counts_seconds
    (sample_width : string -> Z) (float_tobytes : string -> Q -> bytes)
    (frame_mean : string -> string -> list Q -> Q) (np : numpy)
    (file_sr_bs_gen :
       source -> Z -> string -> Q -> result (Z * Z * result (list bytes)))
    (self : Speaker) (src : source) (repeat : Z) (preload : Q)
    (kw : kwargs) :
  let bd := kw_get (kw_block_duration kw) (block_duration self) in
  let trace := fst (play sample_width float_tobytes frame_mean np
                         file_sr_bs_gen self src repeat preload kw) in
  let blocks := sent trace in
  let k := burst bd preload (length blocks) in
  (trace = []
   \/ exists (sr : Z) (dt : string) (bs : Z),
        trace = [LockAcquire; SetFormat sr dt bs; StreamOpen]
                  ++ burst_then_paced k bd blocks
                  ++ [StreamClose; LockRelease])
  /\ (k <= length blocks)%nat
  /\ (forall j : nat,
        (j < k)%nat ->
        SFltb (count_binary64 bd j) (binary64 preload) = true)
  /\ ((k < length blocks)%nat ->
      SFltb (count_binary64 bd k) (binary64 preload) = false)
  /\ (forall n : nat, burst (1 # 2) 1 n = Nat.min n 2)
  /\ (forall n : nat, burst (1 # 10) 1 n = Nat.min n 11).
Proof.
  intros bd trace blocks k.
  destruct (burst_spec bd preload (length blocks)) as (Hle & Hbelow & Hstop).
  split; [|split; [exact Hle|split; [exact Hbelow|split; [exact Hstop|]]]].
  - unfold k, blocks, trace, play. fold bd.
    assert (Hs : forall sr dt bs gen,
               let t := fst (stream sr dt bs bd preload gen repeat) in
               exists (sr' : Z) (dt' : string) (bs' : Z),
                 t = [LockAcquire; SetFormat sr' dt' bs'; StreamOpen]
                       ++ burst_then_paced
                            (burst bd preload (length (sent t))) bd (sent t)
                       ++ [StreamClose; LockRelease]).
    { intros sr dt bs gen t. exists sr, dt, bs. apply stream_paced. }
    destruct src; try (right; apply Hs).
    + destruct (file_sr_bs_gen _ _ _ _) as [[[sr bs] gen]|e];
        [right; apply Hs | left; reflexivity].
    + destruct (file_sr_bs_gen _ _ _ _) as [[[sr bs] gen]|e];
        [right; apply Hs | left; reflexivity].
    + left. reflexivity.
  - split; intros n.
    + destruct (Nat.le_gt_cases n 2) as [Hn | Hn].
      * rewrite Nat.min_l by exact Hn.
        apply burst_unique; [lia | | lia].
        intros j Hj.
        assert (Hj2 : (j < 2)%nat) by lia. clear - Hj2.
        do 2 (destruct j as [|j]; [vm_compute; reflexivity|]). lia.
      * rewrite Nat.min_r by lia.
        apply burst_unique; [lia | | intros _; vm_compute; reflexivity].
        intros j Hj.
        do 2 (destruct j as [|j]; [vm_compute; reflexivity|]). lia.
    + destruct (Nat.le_gt_cases n 11) as [Hn | Hn].
      * rewrite Nat.min_l by exact Hn.
        apply burst_unique; [lia | | lia].
        intros j Hj.
        assert (Hj2 : (j < 11)%nat) by lia. clear - Hj2.
        do 11 (destruct j as [|j]; [vm_compute; reflexivity|]). lia.
      * rewrite Nat.min_r by lia.
        apply burst_unique; [lia | | intros _; vm_compute; reflexivity].
        intros j Hj.
        do 11 (destruct j as [|j]; [vm_compute; reflexivity|]). lia.
Qed.

(** With half-second blocks and [preload = 1], [play] pushes two blocks
    back to back, not one, and waits only after the third: the pacing is
    not that of [burst_then_paced 1]. *)
Lemma play_preload_counterexample :
  (1 < length three_blocks)%nat
  /\ fst (play_pcm Speaker_init (SrcIterable three_blocks) 1 1
                   kw_half_second)
     = [LockAcquire; SetFormat 22050 "int16" 11025; StreamOpen;
        Put [x01]; Put [x02]; Put [x03]; Sleep (95 # 200);
        StreamClose; LockRelease]
  /\ fst (play_pcm Speaker_init (SrcIterable three_blocks) 1 1
                   kw_half_second)
     <> [LockAcquire; SetFormat 22050 "int16" 11025; StreamOpen]
          ++ burst_then_paced 1 (1 # 2) three_blocks
          ++ [StreamClose; LockRelease].
Proof.
  split; [cbn; lia|]. split; [reflexivity|].
  vm_compute. intros H. discriminate H.
Qed.

(** ** C8: unsupported sources *)

(** C8.  When the source is not a string, has no [read], is not a numeric
    array, is not a bytes object and is not Iterable, [play] raises
    [TypeError] (the specification's UnsupportedSourceError) before it
    takes the lock, and no block reaches the output channel. *)
Theorem play_unsupported_source
    (sample_width : string -> Z) (float_tobytes : string -> Q -> bytes)
    (frame_mean : string -> string -> list Q -> Q) (np : numpy)
    (file_sr_bs_gen :
       source -> Z -> string -> Q -> result (Z * Z * result (list bytes)))
    (self : Speaker) (src : source) (repeat : Z) (preload : Q)
    (kw : kwargs) :
  is_str src = false -> has_read src = false -> is_ndarray src = false ->
  is_bytes src = false -> is_Iterable src = false ->
  (exists msg : string,
     snd (play sample_width float_tobytes frame_mean np file_sr_bs_gen self
               src repeat preload kw) = Err (TypeError msg))
  /\ sent (fst (play sample_width float_tobytes frame_mean np file_sr_bs_gen
                     self src repeat preload kw)) = []
  /\ fst (play sample_width float_tobytes frame_mean np file_sr_bs_gen
               self src repeat preload kw) = [].
Proof.
  intros Hs Hr Ha Hb Hi.
  destruct src; try discriminate.
  cbn. split; [eexists; reflexivity|]. split; reflexivity.
Qed.

Lemma play_unsupported_source_witness :
  is_str (SrcOther "42") = false /\ has_read (SrcOther "42") = false /\
  is_ndarray (SrcOther "42") = false /\ is_bytes (SrcOther "42") = false /\
  is_Iterable (SrcOther "42") = false /\
  (exists msg : string,
     snd (play_pcm Speaker_init (SrcOther "42") 1 1 no_kw)
     = Err (TypeError msg))
  /\ sent (fst (play_pcm Speaker_init (SrcOther "42") 1 1 no_kw)) = []
  /\ fst (play_pcm Speaker_init (SrcOther "42") 1 1 no_kw) = [].
Proof.
  repeat (split; [reflexivity|]).
  apply (play_unsupported_source sample_width_pcm float_tobytes_zero
           frame_mean_exact np_exact file_sr_bs_gen_absent Speaker_init
           (SrcOther "42") 1 1 no_kw); reflexivity.
Defined.

(** A dtype name cannot start with both [float] and [int]. *)
Lemma float_name_not_int (s : string) :
  startswith s "float" = true -> startswith s "int" = false.
Proof.
  unfold startswith. destruct s as [|c s]; [discriminate|].
  cbn [String.prefix].
  destruct (ascii_dec "f" c) as [<-|]; [|discriminate]. reflexivity.
Qed.

Lemma dtype_families_exclusive (s : string) :
  startswith s "float" && startswith s "int" = false.
Proof.
  destruct (startswith s "float") eqn:Hf; [|reflexivity].
  now rewrite (float_name_not_int s Hf).
Qed.

(** A down-mixed array already has dtype [dt]: neither conversion branch
    is taken. *)
Lemma np_convert_2d (frame_mean : string -> string -> list Q -> Q)
    (np : numpy) (d dt : string) (frames : list (list Q)) :
  np_convert frame_mean np (Array2 d frames) dt
  = Ok (dt, map (frame_mean d dt) frames).
Proof.
  unfold np_convert.
  change (1 <? ndim (Array2 d frames)) with true.
  cbn [mean_axis1 dtype_of samples_of].
  rewrite dtype_families_exclusive.
  rewrite andb_comm, dtype_families_exclusive. reflexivity.
Qed.

(** A mono array goes to the dtype tests as it is. *)
Lemma np_convert_1d (frame_mean : string -> string -> list Q -> Q)
    (np : numpy) (d dt : string) (xs : list Q) :
  np_convert frame_mean np (Array1 d xs) dt =
  if startswith d "float" && startswith dt "int" then
    m <- iinfo_max dt ;;
    Ok (dt, map (fun x => np_astype np dt (np_multiply np d x m)) xs)
  else if startswith d "int" && startswith dt "float" then
    m <- iinfo_max d ;;
    Ok (dt, map (fun x => np_true_divide np dt (np_astype np dt x) m) xs)
  else Ok (d, xs).
Proof. reflexivity. Qed.

Lemma np_convert_empty (frame_mean : string -> string -> list Q -> Q)
    (np : numpy) (d dt : string) (a : string * list Q) :
  np_convert frame_mean np (Array1 d []) dt = Ok a -> snd a = [].
Proof.
  rewrite np_convert_1d.
  destruct (startswith d "float" && startswith dt "int").
  - destruct (iinfo_max dt); cbn [bind]; [|discriminate].
    intros H. injection H as <-. reflexivity.
  - destruct (startswith d "int" && startswith dt "float").
    + destruct (iinfo_max d); cbn [bind]; [|discriminate].
      intros H. injection H as <-. reflexivity.
    + intros H. injection H as <-. reflexivity.
Qed.

Lemma sent_pace (bd preload : Q) (blocks : list bytes) :
  forall count : spec_float, sent (pace bd preload count blocks) = blocks.
Proof.
  induction blocks as [|raw rest IH]; intros count; [reflexivity|].
  cbn [pace sent]. destruct (SFltb count (binary64 preload)); cbn [sent];
    now rewrite IH.
Qed.

(** What [stream] sends is what [repeat_gen] yields; nothing when the
    generator raises. *)
Lemma sent_stream (sr : Z) (dt : string) (bs : Z) (bd preload : Q)
    (gen : result (list bytes)) (repeat : Z) :
  sent (fst (stream sr dt bs bd preload gen repeat)) =
  match repeat_gen gen repeat with Ok blocks => blocks | Err _ => [] end.
Proof.
  unfold stream. destruct (repeat_gen gen repeat) as [blocks|e];
    [|reflexivity].
  cbn [fst app sent].
  assert (H : forall tr, sent (tr ++ [StreamClose; LockRelease]) = sent tr).
  { induction tr as [|ev tr IH]; [reflexivity|].
    destruct ev; cbn [app sent]; congruence. }
  now rewrite H, sent_pace.
Qed.

Lemma repeat_gen_empty (gen : result (list bytes)) (repeat : Z) :
  gen = Ok [] \/ (exists e, gen = Err e) ->
  match repeat_gen gen repeat with Ok blocks => blocks | Err _ => [] end
  = [].
Proof.
  intros [-> | [e ->]].
  - destruct (Z.le_gt_cases 0 repeat) as [Hr|Hr].
    + rewrite repeat_gen_ok by exact Hr.
      induction (Z.to_nat repeat) as [|n IH]; [reflexivity|exact IH].
    + unfold repeat_gen, Tee.tee.
      destruct (Z.eqb_spec repeat 1); [lia|].
      destruct (Z.ltb_spec repeat 0); [reflexivity|lia].
  - unfold repeat_gen. destruct (repeat =? 1); [reflexivity|].
    destruct (Tee.tee repeat) as [[|c views]|e']; reflexivity.
Qed.

(** ** C10: empty input *)

(** C10.  For a positive block size, the chunking step emits no block for
    an empty byte buffer, and neither does [np_gen] for an array of zero
    samples, mono or multi-channel (the only other outcome, for a mono
    array, is the exception of the dtype conversion); [play] of such a
    source puts nothing on the output channel, whatever [repeat] and
    [preload] are. *)
Theorem empty_input_sends_no_block
    (sample_width : string -> Z) (float_tobytes : string -> Q -> bytes)
    (frame_mean : string -> string -> list Q -> Q) (np : numpy)
    (file_sr_bs_gen :
       source -> Z -> string -> Q -> result (Z * Z * result (list bytes)))
    (d dt : string) (bs : Z) :
  0 < bs -> 0 < sample_width dt ->
  raw_gen sample_width [] dt bs = Ok []
  /\ np_gen sample_width float_tobytes frame_mean np (Array1 d []) dt bs
     = match np_convert frame_mean np (Array1 d []) dt with
       | Ok _ => Ok []
       | Err e => Err e
       end
  /\ np_gen sample_width float_tobytes frame_mean np (Array2 d []) dt bs
     = Ok []
  /\ (forall (self : Speaker) (kw : kwargs) (repeat : Z) (preload : Q)
             (src : source),
        kw_get (kw_dtype kw) (dtype self) = dt ->
        py_int (kw_get (kw_block_duration kw) (block_duration self)
                * inject_Z (kw_get (kw_sample_rate kw) (sample_rate self)))
        = bs ->
        src = SrcBytes [] \/ src = SrcArray (Array1 d [])
        \/ src = SrcArray (Array2 d []) ->
        sent (fst (play sample_width float_tobytes frame_mean np
                        file_sr_bs_gen self src repeat preload kw)) = []).
Proof.
  intros Hbs Hw.
  assert (Hraw : raw_gen sample_width [] dt bs = Ok [])
    by (apply raw_gen_nil; nia).
  assert (H1 : np_gen sample_width float_tobytes frame_mean np (Array1 d [])
                      dt bs
               = match np_convert frame_mean np (Array1 d []) dt with
                 | Ok _ => Ok []
                 | Err e => Err e
                 end).
  { unfold np_gen.
    destruct (np_convert frame_mean np (Array1 d []) dt) as [a|e] eqn:Hc;
      [|reflexivity].
    cbn [bind]. rewrite (np_convert_empty _ _ _ _ _ Hc). exact Hraw. }
  assert (H2 : np_gen sample_width float_tobytes frame_mean np (Array2 d [])
                      dt bs = Ok []).
  { unfold np_gen. rewrite np_convert_2d. cbn [bind fst snd map]. exact Hraw. }
  repeat split; try assumption.
  intros self kw repeat preload src Hdt Hb [-> | [-> | ->]];
    unfold play; rewrite Hdt, Hb, sent_stream; apply repeat_gen_empty.
  - left. exact Hraw.
  - rewrite H1. destruct (np_convert frame_mean np (Array1 d []) dt);
      [left; reflexivity|right; eexists; reflexivity].
  - left. exact H2.
Qed.

Lemma empty_input_sends_no_block_witness :
  0 < 2205 /\ 0 < sample_width_pcm "int16"
  /\ raw_gen sample_width_pcm [] "int16" 2205 = Ok []
  /\ np_gen sample_width_pcm float_tobytes_zero frame_mean_exact np_exact
            (Array1 "float32" []) "int16" 2205 = Ok []
  /\ sent (fst (play_pcm Speaker_init (SrcBytes []) 3 1 no_kw)) = [].
Proof.
  split; [lia|]. split; [reflexivity|].
  destruct (empty_input_sends_no_block sample_width_pcm float_tobytes_zero
              frame_mean_exact np_exact file_sr_bs_gen_absent "float32"
              "int16" 2205 ltac:(lia) eq_refl)
    as (Hraw & Hnp & _ & Hplay).
  split; [exact Hraw|]. split; [exact Hnp|].
  exact (Hplay Speaker_init no_kw 3 1%Q (SrcBytes []) eq_refl eq_refl
               (or_introl eq_refl)).
Defined.

(** ** Tone sequences *)

Section ReduceAdd.

Variable pitch : Type.
Variable f : tone pitch -> result AudioSegment.t.

Lemma fold_add_audio_err (tones : list (tone pitch)) (e : exn) :
  fold_left (add_audio pitch f) tones (Err e) = Err e.
Proof. induction tones as [|t ts IH]; [reflexivity|exact IH]. Qed.

Lemma fold_add_audio_acc (tones : list (tone pitch)) :
  forall acc : AudioSegment.t,
    fold_left (add_audio pitch f) tones (Ok acc) =
    (r <- reduce_add pitch f tones ;; Ok (acc ++ r)).
Proof.
  unfold reduce_add, reduce.
  induction tones as [|t ts IH]; intros acc.
  - cbn. now rewrite app_nil_r.
  - cbn [fold_left]. unfold add_audio at 2 4. cbn [bind].
    destruct (f t) as [a|e]; cbn [bind].
    + unfold AudioSegment.add, AudioSegment.empty. cbn [app].
      rewrite (IH (acc ++ a)), (IH a).
      destruct (fold_left (add_audio pitch f) ts (Ok AudioSegment.empty));
        cbn [bind]; [now rewrite app_assoc|reflexivity].
    + now rewrite !fold_add_audio_err.
Qed.

(** The reduction, read from the left: the audio of the first element,
    then that of the rest; the first exception wins. *)
Lemma reduce_add_cons (t : tone pitch) (ts : list (tone pitch)) :
  reduce_add pitch f (t :: ts) =
  (a <- f t ;; r <- reduce_add pitch f ts ;; Ok (a ++ r)).
Proof.
  unfold reduce_add at 1. unfold reduce. cbn [fold_left].
  unfold add_audio at 2. cbn [bind]. destruct (f t) as [a|e]; cbn [bind].
  - unfold AudioSegment.add, AudioSegment.empty. cbn [app].
    apply fold_add_audio_acc.
  - apply fold_add_audio_err.
Qed.

Lemma reduce_add_nil : reduce_add pitch f [] = Ok [].
Proof. reflexivity. Qed.

End ReduceAdd.

Lemma reduce_add_err (pitch : Type) (f : tone pitch -> result AudioSegment.t)
    (bad : exn -> Prop) (tones : list (tone pitch)) :
  Forall (fun t => forall e, f t = Err e -> bad e) tones ->
  forall e, reduce_add pitch f tones = Err e -> bad e.
Proof.
  induction 1 as [|t ts Ht _ IH]; intros e; [discriminate|].
  rewrite reduce_add_cons. destruct (f t) as [a|e'] eqn:Hf; cbn [bind].
  - destruct (reduce_add pitch f ts) as [r|e'']; cbn [bind]; [discriminate|].
    intros H. injection H as <-. now apply IH.
  - intros H. injection H as <-. now apply Ht.
Qed.

Section ToneErrors.

Variable pitch : Type.
Variable frequency : pitch -> Q.

Lemma append_err (seg1 seg2 : AudioSegment.t) (crossfade : Q) (e : exn) :
  AudioSegment.append seg1 seg2 crossfade = Err e -> crossfade_error e.
Proof.
  unfold AudioSegment.append, crossfade_error.
  destruct (Qeq_bool crossfade 0); [discriminate|].
  destruct (Qlt_le_dec (AudioSegment.duration seg1) crossfade);
    [intros H; injection H as <-; now left|].
  destruct (Qlt_le_dec (AudioSegment.duration seg2) crossfade);
    [intros H; injection H as <-; now right|discriminate].
Qed.

Lemma elem_audio_err (duty_cycle : Q) (sr : Z) (t : tone pitch) :
  forall (base_beat_ms : Q) (e : exn),
    elem_audio pitch frequency t base_beat_ms duty_cycle sr = Err e ->
    crossfade_error e.
Proof.
  induction t as [x|l IH] using tone_nested_ind; intros b e.
  - cbn [elem_audio]. unfold note. apply append_err.
  - cbn [elem_audio]. apply reduce_add_err.
    eapply Forall_impl; [|exact IH]. intros t Ht e'. apply Ht.
Qed.

Lemma tone2audio_err (tones : list (tone pitch))
    (base_beat_ms duty_cycle : Q) (sr : Z) (e : exn) :
  tone2audio pitch frequency tones base_beat_ms duty_cycle sr = Err e ->
  crossfade_error e.
Proof.
  unfold tone2audio. apply reduce_add_err.
  apply Forall_forall. intros t _ e'. apply elem_audio_err.
Qed.

End ToneErrors.

Lemma raw_gen_err (sample_width : string -> Z) (data : bytes) (dt : string)
    (bs : Z) (e : exn) :
  raw_gen sample_width data dt bs = Err e ->
  e = ValueError "range() arg 3 must not be zero".
Proof.
  unfold raw_gen, py_range.
  destruct (bs * sample_width dt =? 0); cbn [bind]; [|discriminate].
  intros H. now injection H as <-.
Qed.

Lemma repeat_gen_err (gen : result (list bytes)) (n : Z) (e : exn) :
  repeat_gen gen n = Err e ->
  gen = Err e \/ e = ValueError "n must be >= 0".
Proof.
  unfold repeat_gen, Tee.tee. destruct (n =? 1); [now left|].
  destruct (n <? 0); cbn [bind].
  - intros H. injection H as <-. now right.
  - destruct (repeat O (Z.to_nat n)); [discriminate|].
    destruct gen; cbn [bind]; [discriminate|now left].
Qed.

Lemma snd_stream (sr : Z) (dt : string) (bs : Z) (bd preload : Q)
    (gen : result (list bytes)) (repeat : Z) :
  snd (stream sr dt bs bd preload gen repeat) =
  match repeat_gen gen repeat with Ok _ => Ok tt | Err e => Err e end.
Proof. unfold stream. now destruct (repeat_gen gen repeat). Qed.

(** ** C4: the duty-cycle check *)

(** C4.  [beep] raises the [ValueError] of its range check (the
    specification's InvalidParameterError) exactly when [duty_cycle] lies
    outside the interval (0, 1], and then does nothing else; [0] and [1.5]
    are rejected, and no value with [0 < duty_cycle <= 1] is. *)
Theorem beep_duty_cycle_check
    (pitch : Type) (frequency : pitch -> Q)
    (sample_width : string -> Z) (float_tobytes : string -> Q -> bytes)
    (frame_mean : string -> string -> list Q -> Q) (np : numpy)
    (file_sr_bs_gen :
       source -> Z -> string -> Q -> result (Z * Z * result (list bytes)))
    (raw_data : Z -> AudioSegment.t -> bytes)
    (self : Speaker) (tones : list (tone pitch)) (repeat : Z) (tempo : Q) :
  let beep := beep pitch frequency sample_width float_tobytes frame_mean np
                   file_sr_bs_gen raw_data self tones repeat tempo in
  let out_of_range := Err (ValueError "duty_cycle out of range (0, 1]") in
  (forall duty_cycle : Q,
     snd (beep duty_cycle) = out_of_range
     <-> ~ (0 < duty_cycle /\ duty_cycle <= 1)%Q)
  /\ (forall duty_cycle : Q,
        ~ (0 < duty_cycle /\ duty_cycle <= 1)%Q -> fst (beep duty_cycle) = [])
  /\ beep 0%Q = ([], out_of_range)
  /\ beep (3 # 2)%Q = ([], out_of_range).
Proof.
  intros beep0 out_of_range.
  assert (Hout : forall dc, ~ (0 < dc /\ dc <= 1)%Q ->
                            beep0 dc = ([], out_of_range)).
  { intros dc Hdc. unfold beep0, beep.
    destruct (Qltb 0 dc) eqn:H0; [|reflexivity].
    destruct (Qle_bool dc 1) eqn:H1; [|reflexivity].
    exfalso. apply Hdc. split; [now apply Qltb_true|now apply Qle_bool_iff]. }
  split; [|split; [|split]].
  - intros dc. split; [|intros H; now rewrite (Hout dc H)].
    intros Herr [H0 H1]. unfold beep0, beep in Herr.
    apply Qltb_true in H0. apply Qle_bool_iff in H1.
    rewrite H0, H1 in Herr. cbn [andb negb] in Herr.
    destruct (Qeq_bool tempo 0); [discriminate|].
    destruct (tone2audio _ _ _ _ _ _) as [aud|e] eqn:Haud.
    + unfold play in Herr. rewrite snd_stream in Herr.
      destruct (repeat_gen _ repeat) as [blocks|e] eqn:Hgen; [discriminate|].
      apply repeat_gen_err in Hgen. destruct Hgen as [Hgen| ->].
      * apply raw_gen_err in Hgen. subst e. discriminate.
      * discriminate.
    + apply tone2audio_err in Haud. cbn [snd] in Herr.
      injection Herr as ->. destruct Haud; discriminate.
  - intros dc H. now rewrite (Hout dc H).
  - apply Hout. intros [H _]. discriminate.
  - apply Hout. intros [_ H]. now apply H.
Qed.

(** ** C5: the rendering sample rate *)

Section FoldMax.

Local Open Scope Q_scope.

Variable A : Type.
Variable g : A -> Q.

Lemma reduce_cons {B : Type} (f : B -> A -> B) (x : A) (l : list A)
    (init : B) :
  reduce f (x :: l) init = reduce f l (f init x).
Proof. reflexivity. Qed.

Lemma py_max_cases (a b : Q) :
  (py_max a b = a /\ b <= a) \/ (py_max a b = b /\ a < b).
Proof.
  unfold py_max, Qltb. destruct (Qlt_le_dec a b); [right|left]; auto.
Qed.

Lemma fold_max_ge_init (l : list A) :
  forall r0, r0 <= reduce (fun r e => py_max r (g e)) l r0.
Proof.
  induction l as [|e l IH]; intros r0; [apply Qle_refl|].
  rewrite reduce_cons. eapply Qle_trans; [|apply IH].
  destruct (py_max_cases r0 (g e)) as [[-> _]|[-> H]];
    [apply Qle_refl|now apply Qlt_le_weak].
Qed.

Lemma fold_max_ge_elem (l : list A) :
  forall r0 e, In e l -> g e <= reduce (fun r e => py_max r (g e)) l r0.
Proof.
  induction l as [|e' l IH]; intros r0 e Hin; [destruct Hin|].
  rewrite reduce_cons. destruct Hin as [<-|Hin]; [|now apply IH].
  eapply Qle_trans; [|apply fold_max_ge_init].
  destruct (py_max_cases r0 (g e')) as [[-> H]|[-> _]];
    [exact H|apply Qle_refl].
Qed.

Lemma fold_max_attained (l : list A) :
  forall r0,
    reduce (fun r e => py_max r (g e)) l r0 = r0
    \/ exists e, In e l /\ reduce (fun r e => py_max r (g e)) l r0 = g e.
Proof.
  induction l as [|e l IH]; intros r0; [now left|].
  rewrite reduce_cons.
  destruct (IH (py_max r0 (g e))) as [H|[e' [Hin H]]].
  - destruct (py_max_cases r0 (g e)) as [[Hm _]|[Hm _]].
    + left. now rewrite H.
    + right. exists e. split; [now left|]. now rewrite H.
  - right. exists e'. split; [now right|exact H].
Qed.

End FoldMax.

Section MaxFreq.

Local Open Scope Q_scope.

Variable pitch : Type.
Variable frequency : pitch -> Q.

Lemma elem_max_freq_spec (t : tone pitch) :
  (forall p, In p (elem_pitches t) ->
             frequency p <= elem_max_freq pitch frequency t)
  /\ (elem_max_freq pitch frequency t = 0
      \/ exists p, In p (elem_pitches t)
                   /\ elem_max_freq pitch frequency t = frequency p).
Proof.
  induction t as [x|l IH] using tone_nested_ind.
  - split.
    + intros p [<-|[]]. apply Qle_refl.
    + right. exists x. split; [now left|reflexivity].
  - cbn [elem_max_freq elem_pitches]. rewrite Forall_forall in IH. split.
    + intros p Hp. apply in_flat_map in Hp. destruct Hp as [t [Ht Hp]].
      eapply Qle_trans; [apply (proj1 (IH t Ht) p Hp)|].
      now apply (fold_max_ge_elem _ (elem_max_freq pitch frequency)).
    + destruct (fold_max_attained _ (elem_max_freq pitch frequency) l 0)
        as [H|[t [Ht H]]]; [now left|].
      rewrite H. destruct (proj2 (IH t Ht)) as [H0|[p [Hp Hf]]];
        [now left|].
      right. exists p. split; [|exact Hf].
      apply in_flat_map. now exists t.
Qed.

(** [max_freq] is the largest frequency among the pitches of the whole
    nested sequence, and [0] when there is none above it. *)
Lemma max_freq_spec (tones : list (tone pitch)) :
  (forall p, In p (pitches tones) ->
             frequency p <= max_freq pitch frequency tones)
  /\ (max_freq pitch frequency tones = 0
      \/ exists p, In p (pitches tones)
                   /\ max_freq pitch frequency tones = frequency p).
Proof.
  exact (elem_max_freq_spec (Phrase tones)).
Qed.

End MaxFreq.

Lemma Qltb_false (a b : Q) : Qltb a b = false <-> (b <= a)%Q.
Proof.
  unfold Qltb. destruct (Qlt_le_dec a b) as [H|H]; split; intros H';
    try reflexivity; try assumption; try discriminate.
  exfalso. exact (Qlt_not_le _ _ H H').
Qed.

Lemma beep_sample_rate_cases
    (pitch : Type) (frequency : pitch -> Q) (tones : list (tone pitch)) :
  let m := max_freq pitch frequency tones in
  let sr := beep_sample_rate pitch frequency tones in
  ((m <= 800)%Q /\ sr = 16000)
  \/ ((800 < m)%Q /\ (m <= 11025)%Q /\ sr = 22050)
  \/ ((11025 < m)%Q /\ sr = 44100).
Proof.
  intros m sr. unfold sr, beep_sample_rate. fold m.
  destruct (Qltb 11025 m) eqn:H1.
  - right. right. split; [now apply Qltb_true|reflexivity].
  - apply Qltb_false in H1. destruct (Qltb 800 m) eqn:H2.
    + right. left. apply Qltb_true in H2. now repeat split.
    + left. apply Qltb_false in H2. now split.
Qed.

(** The thresholds of [beep], and the ones the rule has. *)
Lemma ladder_tier_2_cases (m : Q) :
  ((m <= 8000)%Q /\ ladder_tier 2 m = 16000)
  \/ ((8000 < m)%Q /\ (m <= 11025)%Q /\ ladder_tier 2 m = 22050)
  \/ ((11025 < m)%Q /\ ladder_tier 2 m = 44100).
Proof.
  unfold ladder_tier.
  destruct (Qle_bool (2 * m) 16000) eqn:H1.
  - left. apply Qle_bool_iff in H1. split; [lra|reflexivity].
  - assert (H1' : (8000 < m)%Q).
    { destruct (Qlt_le_dec 8000 m) as [H|H]; [exact H|].
      assert (H' : (2 * m <= 16000)%Q) by lra.
      apply Qle_bool_iff in H'. congruence. }
    destruct (Qle_bool (2 * m) 22050) eqn:H2.
    + right. left. apply Qle_bool_iff in H2.
      split; [exact H1'|]. split; [lra|reflexivity].
    + right. right. split; [|reflexivity].
      destruct (Qlt_le_dec 11025 m) as [H|H]; [exact H|].
      assert (H' : (2 * m <= 22050)%Q) by lra.
      apply Qle_bool_iff in H'. congruence.
Qed.

(** Since 22.05 kHz is left at 800 Hz and kept up to 11025 Hz, where it is
    exactly twice the frequency, no safety margin [c] makes the rate of
    [beep] the smallest rate of the ladder that is [c] times the maximum
    frequency. *)
Lemma beep_sample_rate_no_margin :
  ~ exists c : Q,
      forall tones : list (tone Q),
        beep_sample_rate Q frequency_hz tones
        = ladder_tier c (max_freq Q frequency_hz tones).
Proof.
  intros [c Hc].
  pose proof (Hc [Pitch 11025%Q]) as H1.
  pose proof (Hc [Pitch 5000%Q]) as H2.
  change (beep_sample_rate Q frequency_hz [Pitch 11025%Q]) with 22050 in H1.
  change (beep_sample_rate Q frequency_hz [Pitch 5000%Q]) with 22050 in H2.
  change (max_freq Q frequency_hz [Pitch 11025%Q]) with (py_max 0 11025) in H1.
  change (max_freq Q frequency_hz [Pitch 5000%Q]) with (py_max 0 5000) in H2.
  change (py_max 0 11025) with 11025%Q in H1.
  change (py_max 0 5000) with 5000%Q in H2.
  unfold ladder_tier in H1, H2.
  destruct (Qle_bool (c * 11025) 16000) eqn:Ha; [discriminate|].
  destruct (Qle_bool (c * 11025) 22050) eqn:Hb; [|discriminate].
  apply Qle_bool_iff in Hb.
  destruct (Qle_bool (c * 5000) 16000) eqn:Hd; [discriminate|].
  assert (Hd' : (c * 5000 <= 16000)%Q) by lra.
  apply Qle_bool_iff in Hd'. congruence.
Qed.


(** ** C6: rendered durations *)

(** C6.  [tone2audio] on the phrase [[A4, [B4, C5]]] with a base beat of
    500 ms, at the rate [beep] picks for it.  With a duty cycle of one half
    the three notes last 250, 125 and 125 ms, each one cross-faded into its
    gap from its first millisecond, and the whole lasts 500 ms; with the
    default 0.9 it lasts 900 ms; with one quarter pydub refuses the
    cross-fade.  The beat is halved inside the nested list and the notes
    come in order, but no silent gap is left and the total is
    [1000 * duty_cycle] ms, not 1000 ms. *)
Theorem tone2audio_nested_phrase_is_short :
  beep_sample_rate Q frequency_hz phrase_A4_B4_C5 = 16000
  /\ (60000 / 120 == 500)%Q
  /\ (exists seg : AudioSegment.t,
        tone2audio Q frequency_hz phrase_A4_B4_C5 500 (1 # 2) 16000 = Ok seg
        /\ map fst seg
           = [AudioSegment.Mix (AudioSegment.Sine 440) AudioSegment.Silence;
              AudioSegment.Mix (AudioSegment.Sine (49388 # 100))
                               AudioSegment.Silence;
              AudioSegment.Mix (AudioSegment.Sine (52325 # 100))
                               AudioSegment.Silence]
        /\ map (fun s => Qred (snd s)) seg = [250; 125; 125]%Q
        /\ (AudioSegment.duration seg == 500)%Q
        /\ ~ (AudioSegment.duration seg == 1000)%Q)
  /\ (exists seg : AudioSegment.t,
        tone2audio Q frequency_hz phrase_A4_B4_C5 500 (9 # 10) 16000 = Ok seg
        /\ map (fun s => Qred (snd s)) seg = [400; 50; 200; 25; 200; 25]%Q
        /\ (AudioSegment.duration seg == 900)%Q)
  /\ tone2audio Q frequency_hz phrase_A4_B4_C5 500 (1 # 4) 16000
     = Err (ValueError "Crossfade is longer than the original AudioSegment").
Proof.
  split; [reflexivity|]. split; [reflexivity|]. split; [|split].
  - eexists. split; [vm_compute; reflexivity|].
    repeat split; try reflexivity. intros H. discriminate H.
  - eexists. split; [vm_compute; reflexivity|]. repeat split; reflexivity.
  - reflexivity.
Qed.

(** End to end: [beep] of the phrase at 120 beats per minute and a duty
    cycle of one half streams five blocks of a tenth of a second, half a
    second of audio for two beats of half a second each; with a duty cycle
    of one quarter it raises. *)
Example beep_nested_phrase_blocks :
  map len (sent (fst (beep_hz Speaker_init phrase_A4_B4_C5 1 120 (1 # 2))))
  = [3200; 3200; 3200; 3200; 3200]
  /\ snd (beep_hz Speaker_init phrase_A4_B4_C5 1 120 (1 # 2)) = Ok tt
  /\ beep_hz Speaker_init phrase_A4_B4_C5 1 120 (1 # 4)
     = ([], Err (ValueError
                   "Crossfade is longer than the original AudioSegment")).
Proof. vm_compute. repeat split; reflexivity. Qed.

(** ** C7: dtype conversion *)

(** C7, amended.  For a one-dimensional array there are three cases, told
    apart by the names of the dtypes.  A source whose dtype name starts
    with [float], with a target whose name starts with [int], is
    multiplied by [np.iinfo(target).max] and cast to the target.  A source
    whose dtype name starts with [int], a signed integer, with a target
    whose name starts with [float], is cast to the target and divided by
    [np.iinfo(source).max].  In every other case the array is not
    converted at all and its samples are emitted unchanged, in the source
    dtype: so it is for a source of the family of the target, and for a
    source or a target that is neither, an unsigned integer for one.  A
    multi-channel array is averaged frame by frame in the target dtype and
    emitted without any scaling.  So the [float32] sample [0.5] played as
    [int16] becomes [int(0.5 * 32767) = 16383], and a [uint8] array is
    scaled for no target. *)
Theorem np_gen_conversions
    (sample_width : string -> Z) (float_tobytes : string -> Q -> bytes)
    (frame_mean : string -> string -> list Q -> Q) (np : numpy)
    (d dt : string) (xs : list Q) (frames : list (list Q)) (bs : Z) :
  let emit := fun (dtype : string) (samples : list Q) =>
                raw_gen sample_width (tobytes float_tobytes dtype samples)
                        dt bs in
  let np_gen := np_gen sample_width float_tobytes frame_mean np in
  (startswith d "float" = true -> startswith dt "int" = true ->
   np_gen (Array1 d xs) dt bs
   = (m <- iinfo_max dt ;;
      emit dt (map (fun x => np_astype np dt (np_multiply np d x m)) xs)))
  /\ (startswith d "int" = true -> startswith dt "float" = true ->
      np_gen (Array1 d xs) dt bs
      = (m <- iinfo_max d ;;
         emit dt (map (fun x => np_true_divide np dt (np_astype np dt x) m)
                      xs)))
  /\ (startswith d "float" && startswith dt "int" = false ->
      startswith d "int" && startswith dt "float" = false ->
      np_gen (Array1 d xs) dt bs = emit d xs)
  /\ (dtype_family d = dtype_family dt
      \/ dtype_family d = OtherFamily \/ dtype_family dt = OtherFamily ->
      np_gen (Array1 d xs) dt bs = emit d xs)
  /\ np_gen (Array2 d frames) dt bs = emit dt (map (frame_mean d dt) frames)
  /\ (dtype_family "uint8" = OtherFamily
      /\ iinfo_max "int16" = Ok 32767
      /\ iinfo_max "int" = Ok 9223372036854775807
      /\ np_convert frame_mean_exact np_exact (Array1 "float32" [1 # 2]%Q)
                    "int16"
         = Ok ("int16"%string, [16383]%Q)).
Proof.
  intros emit np_gen0. unfold np_gen0, np_gen, emit.
  assert (Hsame : startswith d "float" && startswith dt "int" = false ->
                  startswith d "int" && startswith dt "float" = false ->
                  a <- np_convert frame_mean np (Array1 d xs) dt ;;
                  raw_gen sample_width (tobytes float_tobytes (fst a) (snd a))
                          dt bs
                  = raw_gen sample_width (tobytes float_tobytes d xs) dt bs).
  { intros H1 H2. now rewrite np_convert_1d, H1, H2. }
  split; [|split; [|split; [exact Hsame|split; [|split]]]].
  - intros Hd Hdt. rewrite np_convert_1d, Hd, Hdt. cbn [andb].
    now destruct (iinfo_max dt).
  - intros Hd Hdt. rewrite np_convert_1d, Hd, Hdt.
    pose proof (dtype_families_exclusive d) as Hx. rewrite Hd in Hx.
    rewrite andb_true_r in Hx. rewrite Hx. cbn [andb].
    now destruct (iinfo_max d).
  - unfold dtype_family. intros Hfam. apply Hsame.
    + pose proof (dtype_families_exclusive d) as Hd.
      pose proof (dtype_families_exclusive dt) as Hdt.
      destruct (startswith d "float"), (startswith d "int"),
        (startswith dt "float"), (startswith dt "int");
        try reflexivity; try discriminate;
        destruct Hfam as [H | [H | H]]; discriminate H.
    + pose proof (dtype_families_exclusive d) as Hd.
      pose proof (dtype_families_exclusive dt) as Hdt.
      destruct (startswith d "float"), (startswith d "int"),
        (startswith dt "float"), (startswith dt "int");
        try reflexivity; try discriminate;
        destruct Hfam as [H | [H | H]]; discriminate H.
  - now rewrite np_convert_2d.
  - repeat split; reflexivity.
Qed.

(** An [int32] array played as [int16] is not cast: its four bytes per
    sample are cut into two-byte blocks.  Likewise a [float64] array played
    as [float32] keeps its eight bytes per sample. *)
Lemma np_gen_same_family_counterexample :
  dtype_family "int32" = dtype_family "int16"
  /\ np_gen sample_width_pcm float_tobytes_zero frame_mean_exact np_exact
            (Array1 "int32" [1%Q]) "int16" 1
     <> (a <- np_convert_as_specified "int32" [1%Q] "int16" ;;
         raw_gen sample_width_pcm
                 (tobytes float_tobytes_zero (fst a) (snd a)) "int16" 1)
  /\ np_gen sample_width_pcm float_tobytes_zero frame_mean_exact np_exact
            (Array1 "int32" [1%Q]) "int16" 1
     = Ok [[x01; x00]; [x00; x00]]
  /\ (a <- np_convert_as_specified "int32" [1%Q] "int16" ;;
      raw_gen sample_width_pcm
              (tobytes float_tobytes_zero (fst a) (snd a)) "int16" 1)
     = Ok [[x01; x00]]
  /\ np_gen sample_width_pcm float_tobytes_zero frame_mean_exact np_exact
            (Array1 "float64" [0%Q]) "float32" 1
     = Ok [[x00; x00; x00; x00]; [x00; x00; x00; x00]]
  /\ (a <- np_convert_as_specified "float64" [0%Q] "float32" ;;
      raw_gen sample_width_pcm
              (tobytes float_tobytes_zero (fst a) (snd a)) "float32" 1)
     = Ok [[x00; x00; x00; x00]].
Proof.
  split; [reflexivity|]. split; [|repeat split; reflexivity].
  vm_compute. intros H. discriminate H.
Qed.

(** ** C9: serialization of concurrent calls *)

Module SchedulerFacts.

Import Scheduler.

Lemma sent_app (a b : list event) : sent (a ++ b) = sent a ++ sent b.
Proof.
  induction a as [|e a IH]; [reflexivity|].
  destruct e; cbn [app sent]; rewrite IH; reflexivity.
Qed.

Lemma firstn_prefix {A : Type} (a b : list A) :
  firstn (length a) (a ++ b) = a.
Proof.
  rewrite firstn_app, Nat.sub_diag, firstn_all. cbn. apply app_nil_r.
Qed.

Section Invariant.

Variables prog body : caller -> list event.
Hypothesis prog_critical : forall c, critical (prog c) (body c).

#[local] Abbreviation at_ := (Scheduler.at_ prog body).
#[local] Abbreviation unstarted := (Scheduler.unstarted prog body).
#[local] Abbreviation finished := (Scheduler.finished prog body).
#[local] Abbreviation inside := (Scheduler.inside body).
#[local] Abbreviation inside_intro := (Scheduler.inside_intro body).
#[local] Abbreviation inv := (Scheduler.inv prog body).
#[local] Abbreviation inv_free := (Scheduler.inv_free prog body).
#[local] Abbreviation inv_held := (Scheduler.inv_held prog body).

Lemma other_other (c : caller) : other (other c) = c.
Proof. now destruct c. Qed.

Lemma rest_update_same (s : state) (c : caller) l r ch :
  rest (update s c l r ch) c = r.
Proof. now destruct c. Qed.

Lemma rest_update_other (s : state) (c : caller) l r ch :
  rest (update s c l r ch) (other c) = rest s (other c).
Proof. now destruct c. Qed.

Lemma lock_update (s : state) (c : caller) l r ch :
  lock (update s c l r ch) = l.
Proof. now destruct c. Qed.

Lemma channel_update (s : state) (c : caller) l r ch :
  channel (update s c l r ch) = ch.
Proof. now destruct c. Qed.

Lemma caller_cases (c m : caller) : m = c \/ m = other c.
Proof. destruct c, m; auto. Qed.

Lemma at_update_other (s : state) (m : caller) l r ch o :
  at_ s (other m) o -> at_ (update s m l r ch) (other m) o.
Proof.
  intros [H|H]; [apply unstarted|apply finished];
    now rewrite rest_update_other.
Qed.

Lemma body_lock_free (c : caller) (done todo : list event) (e : event) :
  body c = done ++ e :: todo -> is_lock_event e = false.
Proof.
  intros Hb. destruct (prog_critical c) as [_ Hfree].
  rewrite Hb, forallb_app in Hfree. apply andb_prop in Hfree.
  destruct Hfree as [_ Hfree]. cbn [forallb] in Hfree.
  apply andb_prop in Hfree. destruct Hfree as [Hfree _].
  now destruct (is_lock_event e).
Qed.

(** A call that has not started takes the lock if it is free. *)
Lemma exec_start (s : state) (m : caller) (o' : list bytes) :
  lock s = None -> rest s m = prog m -> at_ s (other m) o' ->
  channel s = tag (other m) o' ->
  inv (exec m s).
Proof.
  intros Hl Hr Ho Hch. unfold exec. rewrite Hr.
  destruct (prog_critical m) as [[[Hp Hb]|Hp] _]; rewrite Hp.
  - eapply (inv_free s (other m) o' []); try assumption.
    + rewrite other_other. apply unstarted. congruence.
    + rewrite Hch. cbn. now rewrite app_nil_r.
  - rewrite Hl. eapply (inv_held _ m (sent []) o').
    + apply lock_update.
    + apply (inside_intro _ m [] (body m)); [reflexivity|].
      apply rest_update_same.
    + now apply at_update_other.
    + rewrite channel_update, Hch. cbn. now rewrite app_nil_r.
Qed.

Lemma exec_idle (s : state) (m : caller) :
  rest s m = [] -> exec m s = s.
Proof. intros H. unfold exec. now rewrite H. Qed.

(** A call that has not started waits while the lock is held. *)
Lemma exec_blocked (s : state) (m holder : caller) :
  lock s = Some holder -> rest s m = prog m -> exec m s = s.
Proof.
  intros Hl Hr. unfold exec. rewrite Hr.
  destruct (prog_critical m) as [[[Hp _]|Hp] _]; rewrite Hp;
    [reflexivity|now rewrite Hl].
Qed.

(** The holder performs the next event of its critical section. *)
Lemma exec_inside (s : state) (c : caller) (o o' : list bytes) :
  lock s = Some c -> inside s c o -> at_ s (other c) o' ->
  channel s = tag (other c) o' ++ tag c o ->
  inv (exec c s).
Proof.
  intros Hl [done todo Hb Hr] Ho Hch. unfold exec. rewrite Hr.
  destruct todo as [|e todo]; cbn [app].
  - rewrite app_nil_r in Hb.
    eapply (inv_free _ (other c) o' (sent (body c))).
    + apply lock_update.
    + now apply at_update_other.
    + rewrite other_other. apply finished. apply rest_update_same.
    + rewrite channel_update, other_other, Hch, Hb. reflexivity.
  - pose proof (body_lock_free c done todo e Hb) as He.
    assert (Hb' : body c = (done ++ [e]) ++ todo)
      by (now rewrite <- app_assoc).
    assert (Hin : forall l ch,
               inside (update s c l (todo ++ [LockRelease]) ch) c
                      (sent (done ++ [e]))).
    { intros l ch. apply (inside_intro _ c (done ++ [e]) todo Hb').
      apply rest_update_same. }
    destruct e; try discriminate He;
      (eapply (inv_held _ c _ o');
       [rewrite lock_update; exact Hl
       |apply Hin
       |now apply at_update_other
       |rewrite channel_update, Hch, sent_app; cbn [sent];
        unfold tag;
        rewrite ?app_nil_r, ?map_app, <- ?app_assoc; reflexivity]).
Qed.

Lemma exec_preserves (s : state) (m : caller) : inv s -> inv (exec m s).
Proof.
  intros [c o1 o2 Hl H1 H2 Hch|c o o' Hl Hin Ho Hch].
  - destruct (caller_cases c m) as [-> | ->].
    + destruct H1 as [Hr|Hr].
      * now apply (exec_start s c o2).
      * rewrite exec_idle by exact Hr.
        now apply (inv_free s c (sent (body c)) o2); try apply finished.
    + destruct H2 as [Hr|Hr].
      * apply (exec_start s (other c) o1); try assumption;
          rewrite other_other; [exact H1|].
        rewrite Hch. cbn [tag map]. apply app_nil_r.
      * rewrite exec_idle by exact Hr.
        now apply (inv_free s c o1 (sent (body (other c))));
          try apply finished.
  - destruct (caller_cases c m) as [-> | ->].
    + now apply (exec_inside s c o o').
    + assert (Hsame : exec (other c) s = s).
      { destruct Ho as [Hr|Hr];
          [now apply (exec_blocked s (other c) c)|now apply exec_idle]. }
      rewrite Hsame. now apply (inv_held s c o o').
Qed.

Lemma run_preserves (schedule : list caller) :
  forall s, inv s -> inv (run schedule s).
Proof.
  induction schedule as [|m schedule IH]; intros s Hs; [exact Hs|].
  cbn [run fold_left]. apply IH. now apply exec_preserves.
Qed.

Lemma init_inv : inv (init (prog First) (prog Second)).
Proof.
  apply (inv_free _ First [] []); try reflexivity; now apply unstarted.
Qed.

Lemma sent_prog (c : caller) : sent (prog c) = sent (body c).
Proof.
  destruct (prog_critical c) as [[[-> ->] | ->] _]; [reflexivity|].
  cbn [sent]. rewrite sent_app. cbn. apply app_nil_r.
Qed.

Lemma inv_serialized (s : state) :
  inv s -> serialized (channel s) (fun c => sent (prog c)).
Proof.
  intros [c o1 o2 _ H1 H2 Hch|c o o' _ [done todo Hb _] Ho Hch];
    unfold serialized; rewrite Hch.
  - destruct H1 as [_|_], H2 as [_|_].
    + exists c, O. left. reflexivity.
    + exists (other c), (length (sent (prog (other c)))). left.
      now rewrite firstn_all, sent_prog.
    + exists c, (length (sent (prog c))). left.
      rewrite firstn_all, sent_prog. cbn. now rewrite app_nil_r.
    + exists c, (length (sent (prog (other c)))). right.
      now rewrite firstn_all, !sent_prog.
  - assert (Hpre : sent done
                   = firstn (length (sent done)) (sent (prog c))).
    { now rewrite sent_prog, Hb, sent_app, firstn_prefix. }
    destruct Ho as [_|_].
    + exists c, (length (sent done)). left. now rewrite <- Hpre.
    + exists (other c), (length (sent done)). right.
      now rewrite other_other, <- Hpre, sent_prog.
Qed.

(** Whatever the schedule, the blocks of the two calls reach the
    channel one stream after the other. *)
Lemma run_serialized (schedule : list caller) :
  serialized (channel (run schedule (init (prog First) (prog Second))))
             (fun c => sent (prog c)).
Proof. apply inv_serialized, run_preserves, init_inv. Qed.

(** Once both calls have finished, all the blocks of one precede all
    the blocks of the other. *)
Lemma inv_complete (s : state) :
  inv s -> rest s First = [] -> rest s Second = [] ->
  exists c : caller,
    channel s
    = tag c (sent (prog c)) ++ tag (other c) (sent (prog (other c))).
Proof.
  assert (Hat : forall c o, rest s c = [] -> at_ s c o ->
                            o = sent (prog c)).
  { intros c o Hr [H|_]; [|now rewrite sent_prog].
    rewrite <- H, Hr. reflexivity. }
  assert (Hall : forall c, rest s First = [] -> rest s Second = [] ->
                           rest s c = [])
    by (intros [|]; auto).
  intros [c o1 o2 _ H1 H2 Hch|c o o' _ [done todo _ Hr] _ _] HF HS.
  - exists c. rewrite Hch.
    now rewrite (Hat c o1 (Hall c HF HS) H1),
                (Hat (other c) o2 (Hall (other c) HF HS) H2).
  - rewrite (Hall c HF HS) in Hr. now destruct todo.
Qed.

End Invariant.

End SchedulerFacts.

Lemma pace_lock_free (bd preload : Q) (blocks : list bytes) :
  forall count : spec_float,
    forallb (fun e => negb (Scheduler.is_lock_event e))
            (pace bd preload count blocks) = true.
Proof.
  induction blocks as [|raw rest IH]; intros count; [reflexivity|].
  cbn [pace forallb]. destruct (SFltb count (binary64 preload)); cbn;
    apply IH.
Qed.

Lemma stream_critical (sr : Z) (dt : string) (bs : Z) (bd preload : Q)
    (gen : result (list bytes)) (repeat : Z) :
  exists body : list event,
    Scheduler.critical (fst (stream sr dt bs bd preload gen repeat)) body.
Proof.
  unfold stream. destruct (repeat_gen gen repeat) as [blocks|e].
  - exists ([SetFormat sr dt bs; StreamOpen]
            ++ pace bd preload (S754_zero false) blocks ++ [StreamClose]).
    split.
    + right. cbn [fst app]. now rewrite <- app_assoc.
    + cbn [app forallb]. rewrite forallb_app, pace_lock_free. reflexivity.
  - exists [SetFormat sr dt bs; StreamOpen; StreamClose].
    split; [right|]; reflexivity.
Qed.

(** Every call of [play] either fails before it takes the lock or does all
    its streaming between taking and releasing it. *)
Lemma play_critical
    (sample_width : string -> Z) (float_tobytes : string -> Q -> bytes)
    (frame_mean : string -> string -> list Q -> Q) (np : numpy)
    (file_sr_bs_gen :
       source -> Z -> string -> Q -> result (Z * Z * result (list bytes)))
    (self : Speaker) (src : source) (repeat : Z) (preload : Q)
    (kw : kwargs) :
  exists body : list event,
    Scheduler.critical
      (fst (play sample_width float_tobytes frame_mean np file_sr_bs_gen self
                 src repeat preload kw)) body.
Proof.
  assert (Hnil : exists body : list event, Scheduler.critical [] body)
    by (exists []; split; [left; split|]; reflexivity).
  unfold play. destruct src; try apply stream_critical; try exact Hnil.
  - destruct (file_sr_bs_gen _ _ _ _) as [[[sr bs] gen]|e];
      [apply stream_critical|exact Hnil].
  - destruct (file_sr_bs_gen _ _ _ _) as [[[sr bs] gen]|e];
      [apply stream_critical|exact Hnil].
Qed.

(** C9.  Two calls of [play] on one Speaker, run concurrently under any
    schedule: at every moment the output channel holds blocks of one call
    only, or all the blocks of one call followed by blocks of the other, so
    the first block of the later call comes after the last block of the
    earlier one; and when both calls have finished the channel holds the
    whole stream of one followed by the whole stream of the other. *)
Theorem concurrent_play_is_serialized
    (sample_width : string -> Z) (float_tobytes : string -> Q -> bytes)
    (frame_mean : string -> string -> list Q -> Q) (np : numpy)
    (file_sr_bs_gen :
       source -> Z -> string -> Q -> result (Z * Z * result (list bytes)))
    (self : Speaker)
    (src1 : source) (repeat1 : Z) (preload1 : Q) (kw1 : kwargs)
    (src2 : source) (repeat2 : Z) (preload2 : Q) (kw2 : kwargs)
    (schedule : list Scheduler.caller) :
  let play := play sample_width float_tobytes frame_mean np file_sr_bs_gen
                   self in
  let prog := fun c : Scheduler.caller =>
                match c with
                | Scheduler.First => fst (play src1 repeat1 preload1 kw1)
                | Scheduler.Second => fst (play src2 repeat2 preload2 kw2)
                end in
  let s := Scheduler.run schedule
             (Scheduler.init (prog Scheduler.First) (prog Scheduler.Second))
  in
  Scheduler.serialized (Scheduler.channel s) (fun c => sent (prog c))
  /\ (Scheduler.rest s Scheduler.First = [] ->
      Scheduler.rest s Scheduler.Second = [] ->
      exists c : Scheduler.caller,
        Scheduler.channel s
        = Scheduler.tag c (sent (prog c))
          ++ Scheduler.tag (Scheduler.other c)
                           (sent (prog (Scheduler.other c)))).
Proof.
  intros play0 prog s.
  destruct (play_critical sample_width float_tobytes frame_mean np
              file_sr_bs_gen self src1 repeat1 preload1 kw1) as [b1 H1].
  destruct (play_critical sample_width float_tobytes frame_mean np
              file_sr_bs_gen self src2 repeat2 preload2 kw2) as [b2 H2].
  set (body := fun c : Scheduler.caller =>
                 match c with
                 | Scheduler.First => b1
                 | Scheduler.Second => b2
                 end).
  assert (Hcrit : forall c, Scheduler.critical (prog c) (body c))
    by (intros [|]; assumption).
  assert (Hinv : Scheduler.inv prog body s).
  { apply SchedulerFacts.run_preserves; [exact Hcrit|].
    apply SchedulerFacts.init_inv. }
  split.
  - now apply (SchedulerFacts.inv_serialized prog body).
  - now apply (SchedulerFacts.inv_complete prog body).
Qed.

(** Two calls scheduled turn by turn still stream one after the other. *)
Example concurrent_play_alternating :
  Scheduler.channel
    (Scheduler.run
       (concat (repeat [Scheduler.First; Scheduler.Second] 20))
       (Scheduler.init
          (fst (play_pcm Speaker_init (SrcIterable [[x01]; [x02]]) 1 0
                         no_kw))
          (fst (play_pcm Speaker_init (SrcIterable [[x03]; [x04]]) 1 0
                         no_kw))))
  = [(Scheduler.First, [x01]); (Scheduler.First, [x02]);
     (Scheduler.Second, [x03]); (Scheduler.Second, [x04])].
Proof. vm_compute. reflexivity. Qed.

(** * Further properties of the module *)

(** ** Chunking *)

(** X1.  For a positive block size in bytes [B = bs * sample_width dt],
    [raw_gen] emits [ceil(len(data) / B)] blocks. *)
Theorem raw_gen_block_count
    (sample_width : string -> Z) (data : bytes) (dt : string) (bs : Z) :
  0 < bs -> 0 < sample_width dt ->
  exists blocks : list bytes,
    raw_gen sample_width data dt bs = Ok blocks
    /\ len blocks
       = (len data + bs * sample_width dt - 1) / (bs * sample_width dt).
Proof.
  intros Hbs Hw. assert (HB : 0 < bs * sample_width dt) by nia.
  rewrite raw_gen_unfold by exact HB. eexists. split; [reflexivity|].
  unfold len at 1. rewrite length_map, length_seq.
  apply Z2Nat.id. apply Z.div_pos; [|exact HB].
  pose proof (len_nonneg data). lia.
Qed.

Lemma raw_gen_block_count_witness :
  0 < 1 /\ 0 < sample_width_pcm "int16" /\
  exists blocks : list bytes,
    raw_gen sample_width_pcm ["a"; "b"; "c"; "d"; "e"]%byte "int16" 1
    = Ok blocks
    /\ len blocks = 3.
Proof.
  split; [lia|]. split; [reflexivity|].
  exact (raw_gen_block_count sample_width_pcm ["a"; "b"; "c"; "d"; "e"]%byte
           "int16" 1 ltac:(lia) eq_refl).
Defined.

(** X2.  A block length of zero makes [raw_gen] raise [ValueError] on its
    first step, whatever the data, empty data included; a negative block
    length makes it end at once, so that all the data is dropped without
    an error. *)
Theorem raw_gen_degenerate_block_length
    (sample_width : string -> Z) (data : bytes) (dt : string) (bs : Z) :
  (bs * sample_width dt = 0 ->
   raw_gen sample_width data dt bs
   = Err (ValueError "range() arg 3 must not be zero"))
  /\ (bs * sample_width dt < 0 -> raw_gen sample_width data dt bs = Ok []).
Proof.
  unfold raw_gen, py_range. split; intros HB.
  - rewrite HB. reflexivity.
  - destruct (Z.eqb_spec (bs * sample_width dt) 0); [lia|]. cbn [bind].
    unfold range_len. pose proof (len_nonneg data).
    destruct (Z.ltb_spec 0 (bs * sample_width dt)); [lia|].
    destruct (Z.ltb_spec (len data) 0); [lia|]. reflexivity.
Qed.

(** ** Repeating *)

(** X3.  With [repeat = 0] [repeat_gen] yields nothing and never advances
    its generator, so that even a generator that would raise goes
    unnoticed; a negative [repeat] raises [ValueError]; from [repeat = 1]
    on, the exception of a generator that raises comes through. *)
Theorem repeat_gen_edge_cases (gen : result (list bytes)) (n : Z) (e : exn) :
  repeat_gen gen 0 = Ok []
  /\ (n < 0 -> repeat_gen gen n = Err (ValueError "n must be >= 0"))
  /\ (1 <= n -> repeat_gen (Err e) n = Err e).
Proof.
  split; [reflexivity|]. split; intros Hn.
  - unfold repeat_gen, Tee.tee.
    destruct (Z.eqb_spec n 1); [lia|].
    destruct (Z.ltb_spec n 0); [reflexivity|lia].
  - unfold repeat_gen, Tee.tee.
    destruct (Z.eqb_spec n 1); [reflexivity|].
    destruct (Z.ltb_spec n 0); [lia|]. cbn [bind].
    destruct (Z.to_nat n) eqn:Hz; [lia|]. reflexivity.
Qed.

(** ** Streaming *)

(** X4.  [play] of a bytes object with a positive block size sends the
    blocks of [raw_gen], [repeat] times over and in order, and succeeds;
    [preload] changes the waits only, never what is sent. *)
Theorem play_bytes_sends_repeated_chunks
    (sample_width : string -> Z) (float_tobytes : string -> Q -> bytes)
    (frame_mean : string -> string -> list Q -> Q) (np : numpy)
    (file_sr_bs_gen :
       source -> Z -> string -> Q -> result (Z * Z * result (list bytes)))
    (self : Speaker) (data : bytes) (repeat : Z) (preload : Q)
    (kw : kwargs) :
  0 < py_int (kw_get (kw_block_duration kw) (block_duration self)
              * inject_Z (kw_get (kw_sample_rate kw) (sample_rate self))) ->
  0 < sample_width (kw_get (kw_dtype kw) (dtype self)) ->
  0 <= repeat ->
  exists blocks : list bytes,
    raw_gen sample_width data (kw_get (kw_dtype kw) (dtype self))
            (py_int (kw_get (kw_block_duration kw) (block_duration self)
                     * inject_Z (kw_get (kw_sample_rate kw)
                                        (sample_rate self))))
    = Ok blocks
    /\ sent (fst (play sample_width float_tobytes frame_mean np file_sr_bs_gen
                       self (SrcBytes data) repeat preload kw))
       = concat (List.repeat blocks (Z.to_nat repeat))
    /\ snd (play sample_width float_tobytes frame_mean np file_sr_bs_gen
                 self (SrcBytes data) repeat preload kw) = Ok tt.
Proof.
  intros Hbs Hw Hrep.
  set (dt := kw_get (kw_dtype kw) (dtype self)) in *.
  set (bs := py_int _) in *.
  assert (HB : 0 < bs * sample_width dt) by nia.
  pose proof (raw_gen_unfold sample_width data dt bs HB) as Hraw.
  eexists. split; [exact Hraw|].
  unfold play. fold dt. fold bs.
  rewrite sent_stream, snd_stream, Hraw, repeat_gen_ok by exact Hrep.
  split; reflexivity.
Qed.

Lemma play_bytes_sends_repeated_chunks_witness :
  0 < py_int (kw_get (kw_block_duration no_kw) (block_duration Speaker_init)
              * inject_Z (kw_get (kw_sample_rate no_kw)
                                 (sample_rate Speaker_init)))
  /\ 0 < sample_width_pcm (kw_get (kw_dtype no_kw) (dtype Speaker_init))
  /\ 0 <= 2
  /\ exists blocks : list bytes,
       raw_gen sample_width_pcm [x01; x02]
               (kw_get (kw_dtype no_kw) (dtype Speaker_init))
               (py_int (kw_get (kw_block_duration no_kw)
                               (block_duration Speaker_init)
                        * inject_Z (kw_get (kw_sample_rate no_kw)
                                           (sample_rate Speaker_init))))
       = Ok blocks
       /\ sent (fst (play_pcm Speaker_init (SrcBytes [x01; x02]) 2 0 no_kw))
          = concat (List.repeat blocks (Z.to_nat 2))
       /\ snd (play_pcm Speaker_init (SrcBytes [x01; x02]) 2 0 no_kw)
          = Ok tt.
Proof.
  split; [reflexivity|]. split; [reflexivity|]. split; [lia|].
  apply (play_bytes_sends_repeated_chunks sample_width_pcm
           float_tobytes_zero frame_mean_exact np_exact file_sr_bs_gen_absent
           Speaker_init [x01; x02] 2 0%Q no_kw);
    [reflexivity|reflexivity|lia].
Defined.

Lemma stream_shape (sr : Z) (dt : string) (bs : Z) (bd preload : Q)
    (gen : result (list bytes)) (repeat : Z) :
  exists mid : list event,
    fst (stream sr dt bs bd preload gen repeat)
    = [LockAcquire; SetFormat sr dt bs; StreamOpen]
        ++ mid ++ [StreamClose; LockRelease]
    /\ forallb is_put_or_sleep mid = true.
Proof.
  unfold stream. destruct (repeat_gen gen repeat) as [blocks|e].
  - exists (pace bd preload (S754_zero false) blocks).
    split; [reflexivity|].
    generalize (S754_zero false).
    induction blocks as [|raw rest IH]; intros count; [reflexivity|].
    cbn [pace forallb is_put_or_sleep andb].
    destruct (SFltb count (binary64 preload));
      cbn [forallb is_put_or_sleep andb]; apply IH.
  - exists []. split; reflexivity.
Qed.

(** X6.  Whatever the source and the arguments, the trace of [play] is
    empty (the call failed before it took the lock) or it is: take the
    lock, set the format, open the stream, then only puts and waits, then
    close the stream and release the lock.  The stream is closed and the
    lock released also when the block generator raises; and a call that
    succeeds has taken the lock. *)
Theorem play_trace_is_bracketed
    (sample_width : string -> Z) (float_tobytes : string -> Q -> bytes)
    (frame_mean : string -> string -> list Q -> Q) (np : numpy)
    (file_sr_bs_gen :
       source -> Z -> string -> Q -> result (Z * Z * result (list bytes)))
    (self : Speaker) (src : source) (repeat : Z) (preload : Q)
    (kw : kwargs) :
  let out := play sample_width float_tobytes frame_mean np file_sr_bs_gen self
                  src repeat preload kw in
  ((fst out = [] /\ exists e, snd out = Err e)
   \/ exists (sr : Z) (dt : string) (bs : Z) (mid : list event),
        fst out = [LockAcquire; SetFormat sr dt bs; StreamOpen]
                    ++ mid ++ [StreamClose; LockRelease]
        /\ forallb is_put_or_sleep mid = true).
Proof.
  intros out. unfold out, play.
  assert (Hs : forall sr dt bs bd gen,
             exists (sr' : Z) (dt' : string) (bs' : Z) (mid : list event),
               fst (stream sr dt bs bd preload gen repeat)
               = [LockAcquire; SetFormat sr' dt' bs'; StreamOpen]
                   ++ mid ++ [StreamClose; LockRelease]
               /\ forallb is_put_or_sleep mid = true).
  { intros sr dt bs bd gen.
    destruct (stream_shape sr dt bs bd preload gen repeat) as [mid H].
    now exists sr, dt, bs, mid. }
  destruct src; try (right; apply Hs).
  - destruct (file_sr_bs_gen _ _ _ _) as [[[sr bs] gen]|e];
      [right; apply Hs|left; split; [reflexivity|now exists e]].
  - destruct (file_sr_bs_gen _ _ _ _) as [[[sr bs] gen]|e];
      [right; apply Hs|left; split; [reflexivity|now exists e]].
  - left. split; [reflexivity|]. eexists. reflexivity.
Qed.

(** ** File sources *)

Lemma py_int_mul_comm (a b : Q) : py_int (a * b) = py_int (b * a).
Proof.
  unfold py_int. cbn [Qmult Qnum Qden].
  now rewrite Z.mul_comm, Pos.mul_comm.
Qed.

Lemma file_fallback_sound (sample_width : string -> Z)
    (float_tobytes : string -> Q -> bytes)
    (frame_mean : string -> string -> list Q -> Q) (np : numpy) (lib : decoders)
    (src : file_ref) (sr : Z) (dt : string) (bd : Q)
    (r bs : Z) (gen : result (list bytes)) :
  file_fallback sample_width float_tobytes frame_mean np lib src sr dt bd
  = Ok (r, bs, gen) ->
  librosa_get_samplerate lib src = Ok r /\ r < sr
  /\ bs = py_int (bd * inject_Z r)
  \/ r = sr /\ bs = py_int (bd * inject_Z r).
Proof.
  unfold file_fallback.
  destruct (librosa_get_samplerate lib src) as [native|e]; cbn [bind];
    [|discriminate].
  destruct (Z.ltb_spec native sr) as [Hlt|Hge].
  - destruct (librosa_load lib src None); cbn [bind]; [|discriminate].
    intros H. injection H as <- <- _. left.
    repeat split; [exact Hlt|apply py_int_mul_comm].
  - destruct (librosa_load lib src (Some sr)); cbn [bind]; [|discriminate].
    intros H. injection H as <- <- _. right.
    split; [reflexivity|apply py_int_mul_comm].
Qed.

Lemma file_decode_sound (sample_width : string -> Z)
    (float_tobytes : string -> Q -> bytes)
    (frame_mean : string -> string -> list Q -> Q) (np : numpy) (lib : decoders)
    (src : file_ref) (sr : Z) (dt : string) (bd : Q)
    (r bs : Z) (gen : result (list bytes)) :
  file_decode sample_width float_tobytes frame_mean np lib src sr dt bd
  = Ok (r, bs, gen) ->
  r <= sr /\ bs = py_int (bd * inject_Z r).
Proof.
  unfold file_decode.
  assert (Hfb : file_fallback sample_width float_tobytes frame_mean np lib
                              src sr dt bd = Ok (r, bs, gen) ->
                r <= sr /\ bs = py_int (bd * inject_Z r)).
  { intros H. apply file_fallback_sound in H.
    destruct H as [[_ [H1 H2]]|[H1 H2]]; split; auto; lia. }
  destruct (sf_SoundFile lib src) as [n|msg|e]; [|exact Hfb|discriminate].
  destruct (Z.leb_spec n sr) as [Hle|_]; [|exact Hfb].
  intros H. injection H as <- <- _. split; [exact Hle|reflexivity].
Qed.

Lemma file_sr_bs_gen_sound (sample_width : string -> Z)
    (float_tobytes : string -> Q -> bytes)
    (frame_mean : string -> string -> list Q -> Q) (np : numpy) (lib : decoders)
    (src : source) (sr : Z) (dt : string) (bd : Q)
    (r bs : Z) (gen : result (list bytes)) :
  file_sr_bs_gen sample_width float_tobytes frame_mean np lib src sr dt bd
  = Ok (r, bs, gen) ->
  r <= sr /\ bs = py_int (bd * inject_Z r).
Proof.
  unfold file_sr_bs_gen. destruct src; try discriminate.
  destruct (startswith name "http").
  - destruct (urlopen_read lib name); cbn [bind]; [|discriminate].
    apply file_decode_sound.
  - apply file_decode_sound.
Qed.

(** X7.  Whenever [file_sr_bs_gen] returns, by soundfile or by librosa,
    for a file name or for a URL, the sample rate it returns is at most
    the rate it was given as a ceiling, and the block size it returns is
    [int(block_duration * rate)] for the rate it returns. *)
Theorem file_sr_bs_gen_rate_and_block_size
    (sample_width : string -> Z) (float_tobytes : string -> Q -> bytes)
    (frame_mean : string -> string -> list Q -> Q) (np : numpy) (lib : decoders)
    (name : string) (sr : Z) (dt : string) (block_duration : Q)
    (rate bs : Z) (gen : result (list bytes)) :
  file_sr_bs_gen sample_width float_tobytes frame_mean np lib (SrcStr name)
                 sr dt block_duration
  = Ok (rate, bs, gen) ->
  rate <= sr /\ bs = py_int (block_duration * inject_Z rate).
Proof. apply file_sr_bs_gen_sound. Qed.

Lemma file_sr_bs_gen_rate_and_block_size_witness :
  file_sr_bs_gen sample_width_pcm float_tobytes_zero frame_mean_exact np_exact
                 lib_example (SrcStr "cd.wav") 22050 "int16" (1 # 10)
  = Ok (22050, 2205,
        np_gen sample_width_pcm float_tobytes_zero frame_mean_exact np_exact
               (Array1 "float32" [0; 0]%Q) "int16" 2205)
  /\ 22050 <= 22050 /\ 2205 = py_int ((1 # 10) * inject_Z 22050).
Proof.
  split; [reflexivity|].
  exact (file_sr_bs_gen_rate_and_block_size sample_width_pcm
           float_tobytes_zero frame_mean_exact np_exact lib_example "cd.wav"
           22050 "int16" (1 # 10) 22050 2205 _ eq_refl).
Defined.

(** X8.  How a file is decoded.  When soundfile opens it and its rate
    does not exceed the ceiling, the file is streamed at its own rate and
    librosa is not consulted.  When soundfile raises [RuntimeError], or
    the file's rate exceeds the ceiling, librosa decodes it: at the
    ceiling when librosa reports a rate at or above it (the audio is
    down-sampled), at the rate librosa reports when that is lower (the
    audio is never up-sampled).  Any other exception of soundfile comes
    through. *)
Theorem file_decode_paths
    (sample_width : string -> Z) (float_tobytes : string -> Q -> bytes)
    (frame_mean : string -> string -> list Q -> Q) (np : numpy) (lib : decoders)
    (src : file_ref) (sr : Z) (dt : string) (bd : Q) :
  let decode := file_decode sample_width float_tobytes frame_mean np lib
                            src sr dt bd in
  (forall n, sf_SoundFile lib src = SfOpened n -> n <= sr ->
             decode = Ok (n, py_int (bd * inject_Z n),
                          sf_blocks lib src dt (py_int (bd * inject_Z n))))
  /\ (forall native y,
        (exists msg, sf_SoundFile lib src = SfRuntimeError msg)
        \/ (exists n, sf_SoundFile lib src = SfOpened n /\ sr < n) ->
        librosa_get_samplerate lib src = Ok native ->
        librosa_load lib src (if native <? sr then None else Some sr)
        = Ok y ->
        decode = Ok (Z.min native sr,
                     py_int (bd * inject_Z (Z.min native sr)),
                     np_gen sample_width float_tobytes frame_mean np
                            (Array1 "float32" y) dt
                            (py_int (bd * inject_Z (Z.min native sr)))))
  /\ (forall e, sf_SoundFile lib src = SfRaised e -> decode = Err e).
Proof.
  intros decode. unfold decode, file_decode. split; [|split].
  - intros n Hsf Hle. rewrite Hsf.
    destruct (Z.leb_spec n sr); [reflexivity|lia].
  - intros native y Hsf Hnat Hload.
    assert (Hfb : file_fallback sample_width float_tobytes frame_mean np lib
                                src sr dt bd
                  = Ok (Z.min native sr,
                        py_int (bd * inject_Z (Z.min native sr)),
                        np_gen sample_width float_tobytes frame_mean np
                               (Array1 "float32" y) dt
                               (py_int (bd * inject_Z (Z.min native sr))))).
    { unfold file_fallback. rewrite Hnat. cbn [bind].
      rewrite Hload. cbn [bind].
      destruct (Z.ltb_spec native sr).
      - rewrite Z.min_l by lia.
        now rewrite (py_int_mul_comm (inject_Z native) bd).
      - rewrite Z.min_r by lia.
        now rewrite (py_int_mul_comm (inject_Z sr) bd). }
    destruct Hsf as [[msg Hsf]|[n [Hsf Hgt]]]; rewrite Hsf; [exact Hfb|].
    destruct (Z.leb_spec n sr); [lia|exact Hfb].
  - intros e Hsf. now rewrite Hsf.
Qed.

Lemma formats_stream (sr : Z) (dt : string) (bs : Z) (bd preload : Q)
    (gen : result (list bytes)) (repeat : Z) :
  formats (fst (stream sr dt bs bd preload gen repeat)) = [(sr, dt, bs)].
Proof.
  destruct (stream_shape sr dt bs bd preload gen repeat) as [mid [-> Hmid]].
  cbn [app formats]. f_equal.
  induction mid as [|e mid IH]; [reflexivity|].
  cbn [forallb] in Hmid. apply andb_prop in Hmid. destruct Hmid as [He Hm].
  destruct e; try discriminate He; cbn [app formats]; now apply IH.
Qed.

(** X9.  Every stream format that [play] announces, for any source,
    files included, has the dtype of the call, a sample rate that is at
    most the sample rate of the call, and a block size of
    [int(block_duration * rate)] samples for the rate announced: one block
    always holds [block_duration] seconds of audio. *)
Theorem play_format_is_consistent
    (sample_width : string -> Z) (float_tobytes : string -> Q -> bytes)
    (frame_mean : string -> string -> list Q -> Q) (np : numpy) (lib : decoders)
    (self : Speaker) (src : source) (repeat : Z) (preload : Q)
    (kw : kwargs) (rate : Z) (dt : string) (bs : Z) :
  In (rate, dt, bs)
     (formats (fst (play_files sample_width float_tobytes frame_mean np lib
                               self src repeat preload kw))) ->
  rate <= kw_get (kw_sample_rate kw) (sample_rate self)
  /\ dt = kw_get (kw_dtype kw) (dtype self)
  /\ bs = py_int (kw_get (kw_block_duration kw) (block_duration self)
                  * inject_Z rate).
Proof.
  unfold play_files, play.
  set (sr0 := kw_get (kw_sample_rate kw) (sample_rate self)).
  set (dt0 := kw_get (kw_dtype kw) (dtype self)).
  set (bd0 := kw_get (kw_block_duration kw) (block_duration self)).
  assert (Hdirect : forall gen,
             In (rate, dt, bs)
                (formats (fst (stream sr0 dt0 (py_int (bd0 * inject_Z sr0))
                                      bd0 preload gen repeat))) ->
             rate <= sr0 /\ dt = dt0 /\ bs = py_int (bd0 * inject_Z rate)).
  { intros gen. rewrite formats_stream. intros [H|[]].
    injection H as <- <- <-. repeat split. lia. }
  assert (Hfile : forall s,
             In (rate, dt, bs)
                (formats
                   (fst match file_sr_bs_gen sample_width float_tobytes
                                             frame_mean np lib s sr0 dt0 bd0
                        with
                        | Ok (sr, bs, gen) =>
                            stream sr dt0 bs bd0 preload gen repeat
                        | Err e => ([], Err e)
                        end)) ->
             rate <= sr0 /\ dt = dt0 /\ bs = py_int (bd0 * inject_Z rate)).
  { intros s.
    destruct (file_sr_bs_gen _ _ _ _ _ s sr0 dt0 bd0) as [[[r b] gen]|e]
      eqn:Hf; [|intros []].
    apply file_sr_bs_gen_sound in Hf. destruct Hf as [Hr Hb].
    rewrite formats_stream. intros [H|[]].
    injection H as <- <- <-. repeat split; assumption. }
  destruct src; try apply Hdirect; try apply Hfile.
  intros [].
Qed.

Lemma play_format_is_consistent_witness :
  In (16000, "int16"%string, 1600)
     (formats (fst (play_files sample_width_pcm float_tobytes_zero
                               frame_mean_exact np_exact lib_example
                               Speaker_init (SrcStr "voice.wav") 1 1
                               no_kw)))
  /\ 16000 <= kw_get (kw_sample_rate no_kw) (sample_rate Speaker_init)
  /\ "int16"%string = kw_get (kw_dtype no_kw) (dtype Speaker_init)
  /\ 1600 = py_int (kw_get (kw_block_duration no_kw)
                           (block_duration Speaker_init)
                    * inject_Z 16000).
Proof.
  split; [left; reflexivity|].
  apply (play_format_is_consistent sample_width_pcm float_tobytes_zero
           frame_mean_exact np_exact lib_example Speaker_init
           (SrcStr "voice.wav") 1 1%Q no_kw 16000 "int16" 1600).
  left. reflexivity.
Defined.

(** X10.  A file object (an object with [read] and no [startswith], such
    as an open file or a [BytesIO]) is accepted by the test of [play] but
    makes [file_sr_bs_gen] raise at its first line: [play] fails before it
    takes the lock, whatever the decoders can read, and sends nothing. *)
Theorem play_file_object_fails
    (sample_width : string -> Z) (float_tobytes : string -> Q -> bytes)
    (frame_mean : string -> string -> list Q -> Q) (np : numpy) (lib : decoders)
    (self : Speaker) (handle : string) (repeat : Z) (preload : Q)
    (kw : kwargs) :
  has_read (SrcFileLike handle) = true
  /\ fst (play_files sample_width float_tobytes frame_mean np lib self
                     (SrcFileLike handle) repeat preload kw) = []
  /\ exists e : exn,
       snd (play_files sample_width float_tobytes frame_mean np lib self
                       (SrcFileLike handle) repeat preload kw) = Err e.
Proof. split; [reflexivity|]. split; [reflexivity|]. eexists. reflexivity. Qed.

(** ** Text to speech *)

Lemma dict_get_set (d : dict) (k k' : string) (v : pyval) :
  dict_get (dict_set d k v) k'
  = if String.eqb k' k then Some v else dict_get d k'.
Proof.
  induction d as [|[k0 v0] d IH]; cbn [dict_set dict_get].
  - reflexivity.
  - destruct (String.eqb_spec k k0) as [->|Hk]; cbn [dict_get].
    + destruct (String.eqb_spec k' k0); reflexivity.
    + rewrite IH. destruct (String.eqb_spec k' k0) as [->|Hk'];
        [|reflexivity].
      destruct (String.eqb_spec k0 k); [congruence|reflexivity].
Qed.

Lemma dict_get_absent (d : dict) (k : string) :
  ~ In k (map fst d) -> dict_get d k = None.
Proof.
  induction d as [|[k0 v0] d IH]; [reflexivity|].
  cbn [map fst In dict_get]. intros H.
  destruct (String.eqb_spec k k0) as [->|_]; [exfalso; auto|].
  apply IH. auto.
Qed.

(** After an update the entries of the argument win; the other keys keep
    their value. *)
Lemma dict_get_update (o : dict) :
  NoDup (map fst o) ->
  forall (d : dict) (k : string),
    dict_get (dict_update d o) k
    = match dict_get o k with Some v => Some v | None => dict_get d k end.
Proof.
  unfold dict_update.
  induction o as [|[k0 v0] o IH]; intros Hnd d k; [reflexivity|].
  cbn [map fst] in Hnd. inversion Hnd as [|? ? Hnotin Hnd']; subst.
  cbn [fold_left fst snd dict_get]. rewrite (IH Hnd'), dict_get_set.
  destruct (String.eqb_spec k k0) as [->|_]; [|reflexivity].
  now rewrite (dict_get_absent o k0 Hnotin).
Qed.

Lemma dict_set_keys (d : dict) (k : string) (v : pyval) :
  NoDup (map fst d) ->
  NoDup (map fst (dict_set d k v))
  /\ (forall k', In k' (map fst (dict_set d k v))
                 -> k' = k \/ In k' (map fst d)).
Proof.
  induction d as [|[k0 v0] d IH]; intros Hnd.
  - cbn. split; [repeat constructor; auto|]. intros k' [H|[]]. now left.
  - cbn [dict_set map fst] in *. inversion Hnd as [|? ? Hnotin Hnd']; subst.
    destruct (String.eqb_spec k k0) as [->|Hk]; cbn [map fst].
    + split; [exact Hnd|]. intros k' H. now right.
    + destruct (IH Hnd') as [IH1 IH2]. split.
      * constructor; [|exact IH1]. intros Hin.
        destruct (IH2 k0 Hin) as [H|H]; [congruence|contradiction].
      * intros k' [H|H]; [right; now left|].
        destruct (IH2 k' H) as [H'|H']; [now left|right; now right].
Qed.

Lemma dict_update_keys (o d : dict) :
  NoDup (map fst d) -> NoDup (map fst (dict_update d o)).
Proof.
  unfold dict_update. revert d.
  induction o as [|[k0 v0] o IH]; intros d Hnd; [exact Hnd|].
  cbn [fold_left fst snd]. apply IH. now apply dict_set_keys.
Qed.

(** [re.findall] finds nothing exactly when no character is of the
    class. *)
Lemma findall_runs_nil (p : Z -> bool) (txt : text) :
  forall run : text,
    findall_runs p txt run = [] <-> run = [] /\ existsb p txt = false.
Proof.
  induction txt as [|c txt IH]; intros run; cbn [findall_runs existsb].
  - destruct run; split; try tauto; try discriminate.
    intros [H _]. discriminate.
  - destruct (p c) eqn:Hp; cbn [orb].
    + rewrite IH. split; [intros [H _]; discriminate|
                          intros [_ H]; discriminate].
    + destruct run as [|r run]; [rewrite IH; tauto|].
      split; [discriminate|intros [H _]; discriminate].
Qed.

Lemma findall_nil (p : Z -> bool) (txt : text) :
  findall p txt = [] <-> existsb p txt = false.
Proof. unfold findall. rewrite findall_runs_nil. tauto. Qed.

(** The attributes of the engine [say] synthesizes with: an option of the
    call, else the voice chosen from the text, else what the engine had. *)
Lemma say_engine_get (ESpeakNG : dict) (esng : option dict) (txt : text)
    (options : dict) (k : string) :
  NoDup (map fst options) ->
  dict_get (say_engine ESpeakNG esng txt options) k
  = match dict_get options k with
    | Some v => Some v
    | None =>
        if String.eqb k "voice" then Some (auto_voice txt)
        else dict_get (match esng with Some e => e | None => ESpeakNG end) k
    end.
Proof.
  intros Hnd. unfold say_engine.
  rewrite dict_get_update
    by (apply dict_update_keys; repeat constructor; auto).
  rewrite (dict_get_update options Hnd). cbn [dict_get].
  destruct (dict_get options k); [reflexivity|].
  destruct (String.eqb k "voice"); [|reflexivity].
  unfold auto_voice. f_equal. f_equal.
  destruct (findall is_cjk txt) eqn:Hf.
  - apply findall_nil in Hf. now rewrite Hf.
  - destruct (existsb is_cjk txt) eqn:He; [reflexivity|].
    apply findall_nil in He. congruence.
Qed.

Section SayFacts.

Variable sample_width : string -> Z.
Variable float_tobytes : string -> Q -> bytes.
Variable frame_mean : string -> string -> list Q -> Q.
Variable np : numpy.
Variable file_sr_bs_gen :
  source -> Z -> string -> Q -> result (Z * Z * result (list bytes)).
Variable ESpeakNG : dict.
Variable synth_wav : dict -> text -> result bytes.
Variable wave_read : bytes -> result (Z * bytes).

(** Whether or not the synthesis succeeds, the engine is left with the
    attributes [say] set. *)
Lemma fst_say (self : Speaker) (esng : option dict) (txt : text)
    (repeat : Z) (options : dict) :
  fst (say sample_width float_tobytes frame_mean np file_sr_bs_gen ESpeakNG
           synth_wav wave_read self esng txt repeat options)
  = say_engine ESpeakNG esng txt options.
Proof.
  unfold say. destruct (synth_wav _ txt) as [wav|e]; [|reflexivity].
  destruct (wave_read wav) as [[rate frames]|e]; reflexivity.
Qed.

End SayFacts.

(** X11.  After [say], the voice of the engine is the [voice] option when
    the caller gave one; otherwise it is ["zh"] when the text holds a
    character from U+4E00 to U+9FFF and ["en"] when it holds none,
    whatever voice the engine had before and whether or not the synthesis
    then succeeds. *)
Theorem say_voice
    (sample_width : string -> Z) (float_tobytes : string -> Q -> bytes)
    (frame_mean : string -> string -> list Q -> Q) (np : numpy)
    (file_sr_bs_gen :
       source -> Z -> string -> Q -> result (Z * Z * result (list bytes)))
    (ESpeakNG : dict) (synth_wav : dict -> text -> result bytes)
    (wave_read : bytes -> result (Z * bytes))
    (self : Speaker) (esng : option dict) (txt : text) (repeat : Z)
    (options : dict) :
  NoDup (map fst options) ->
  dict_get (fst (say sample_width float_tobytes frame_mean np file_sr_bs_gen
                     ESpeakNG synth_wav wave_read self esng txt repeat
                     options)) "voice"
  = Some match dict_get options "voice" with
         | Some v => v
         | None => VStr (if existsb is_cjk txt then "zh" else "en")
         end.
Proof.
  intros Hnd. rewrite fst_say, say_engine_get by exact Hnd.
  now destruct (dict_get options "voice").
Qed.

Lemma say_voice_witness :
  NoDup (map fst [("pitch"%string, VInt 80)])
  /\ dict_get (fst (say_example Speaker_init None [20320; 22909] 1
                                [("pitch"%string, VInt 80)])) "voice"
     = Some (VStr "zh").
Proof.
  split; [repeat constructor; intros []|].
  apply (say_voice sample_width_pcm float_tobytes_zero frame_mean_exact np_exact
           file_sr_bs_gen_absent ESpeakNG_example synth_wav_example
           wave_read_example Speaker_init None [20320; 22909] 1
           [("pitch"%string, VInt 80)]).
  repeat constructor. intros [].
Defined.

(** X12.  The engine is kept between calls.  An attribute other than the
    voice that a call of [say] does not set keeps the value an earlier
    call gave it: the options of one call stay in force for the next. The
    voice alone is set anew by every call, so that a voice given to one
    call is forgotten by the next. *)
Theorem say_options_persist
    (sample_width : string -> Z) (float_tobytes : string -> Q -> bytes)
    (frame_mean : string -> string -> list Q -> Q) (np : numpy)
    (file_sr_bs_gen :
       source -> Z -> string -> Q -> result (Z * Z * result (list bytes)))
    (ESpeakNG : dict) (synth_wav : dict -> text -> result bytes)
    (wave_read : bytes -> result (Z * bytes))
    (self : Speaker) (esng : option dict) (txt1 txt2 : text)
    (repeat1 repeat2 : Z) (options1 options2 : dict) :
  NoDup (map fst options1) -> NoDup (map fst options2) ->
  let say := say sample_width float_tobytes frame_mean np file_sr_bs_gen
                 ESpeakNG synth_wav wave_read self in
  let esng1 := fst (say esng txt1 repeat1 options1) in
  let esng2 := fst (say (Some esng1) txt2 repeat2 options2) in
  (forall (k : string) (v : pyval),
     k <> "voice"%string -> dict_get options1 k = Some v ->
     dict_get options2 k = None ->
     dict_get esng2 k = Some v)
  /\ (dict_get options2 "voice" = None ->
      dict_get esng2 "voice" = Some (auto_voice txt2)).
Proof.
  intros Hnd1 Hnd2 say0 esng1 esng2. unfold esng2, esng1, say0.
  rewrite !fst_say. split.
  - intros k v Hk H1 H2. rewrite say_engine_get, H2 by exact Hnd2.
    destruct (String.eqb_spec k "voice"); [contradiction|].
    now rewrite say_engine_get, H1 by exact Hnd1.
  - intros H2. now rewrite say_engine_get, H2 by exact Hnd2.
Qed.

Lemma say_options_persist_witness :
  NoDup (map fst [("pitch"%string, VInt 80); ("voice"%string, VStr "fr")])
  /\ NoDup (map fst (@nil (string * pyval)))
  /\ dict_get
       (fst (say_example Speaker_init
               (Some (fst (say_example Speaker_init None [104; 105] 1
                             [("pitch"%string, VInt 80);
                              ("voice"%string, VStr "fr")])))
               [104; 105] 1 [])) "pitch"
     = Some (VInt 80)
  /\ dict_get
       (fst (say_example Speaker_init
               (Some (fst (say_example Speaker_init None [104; 105] 1
                             [("pitch"%string, VInt 80);
                              ("voice"%string, VStr "fr")])))
               [104; 105] 1 [])) "voice"
     = Some (VStr "en").
Proof.
  assert (H1 : NoDup (map fst [("pitch"%string, VInt 80);
                               ("voice"%string, VStr "fr")])).
  { repeat constructor; cbn; [intros [H | []]; discriminate H | intros []]. }
  assert (H2 : NoDup (map fst (@nil (string * pyval)))) by constructor.
  split; [exact H1|]. split; [exact H2|].
  destruct (say_options_persist sample_width_pcm float_tobytes_zero
              frame_mean_exact np_exact file_sr_bs_gen_absent ESpeakNG_example
              synth_wav_example wave_read_example Speaker_init None
              [104; 105] [104; 105] 1 1
              [("pitch"%string, VInt 80); ("voice"%string, VStr "fr")] []
              H1 H2) as [Hp Hv].
  split.
  - apply (Hp "pitch"%string (VInt 80));
      [discriminate | reflexivity | reflexivity].
  - apply Hv. reflexivity.
Defined.

(** X13.  When the synthesis succeeds, [say] streams the frames of the WAV
    file as 16-bit samples at the frame rate of the file, whatever the
    dtype and the sample rate of the Speaker are: it announces that rate
    with a block of [int(block_duration * rate)] samples and sends the
    frames cut into such blocks, [repeat] times over. *)
Theorem say_streams_the_wav
    (sample_width : string -> Z) (float_tobytes : string -> Q -> bytes)
    (frame_mean : string -> string -> list Q -> Q) (np : numpy)
    (file_sr_bs_gen :
       source -> Z -> string -> Q -> result (Z * Z * result (list bytes)))
    (ESpeakNG : dict) (synth_wav : dict -> text -> result bytes)
    (wave_read : bytes -> result (Z * bytes))
    (self : Speaker) (esng : option dict) (txt : text) (repeat : Z)
    (options : dict) (wav frames : bytes) (rate : Z) :
  synth_wav (say_engine ESpeakNG esng txt options) txt = Ok wav ->
  wave_read wav = Ok (rate, frames) ->
  0 < py_int (block_duration self * inject_Z rate) ->
  0 < sample_width "int16"%string ->
  0 <= repeat ->
  let out := snd (say sample_width float_tobytes frame_mean np file_sr_bs_gen
                      ESpeakNG synth_wav wave_read self esng txt repeat
                      options) in
  formats (fst out)
  = [(rate, "int16"%string, py_int (block_duration self * inject_Z rate))]
  /\ snd out = Ok tt
  /\ exists blocks : list bytes,
       raw_gen sample_width frames "int16"
               (py_int (block_duration self * inject_Z rate)) = Ok blocks
       /\ sent (fst out) = concat (List.repeat blocks (Z.to_nat repeat)).
Proof.
  intros Hsynth Hwave Hbs Hw Hrep out. unfold out, say.
  rewrite Hsynth, Hwave. cbn [snd]. unfold play.
  cbn [kw_get kw_sample_rate kw_dtype kw_block_duration].
  set (bs := py_int _) in *.
  assert (HB : 0 < bs * sample_width "int16"%string) by nia.
  pose proof (raw_gen_unfold sample_width frames "int16"%string bs HB) as Hraw.
  rewrite formats_stream, snd_stream, sent_stream, Hraw,
    repeat_gen_ok by exact Hrep.
  split; [reflexivity|]. split; [reflexivity|].
  eexists. split; reflexivity.
Qed.

Lemma say_streams_the_wav_witness :
  formats (fst (snd (say_example
                       {| sample_rate := 44100; dtype := "float32";
                          block_duration := 1 # 22050 |}
                       None [104; 105] 2 [])))
  = [(22050, "int16"%string, 1)]
  /\ sent (fst (snd (say_example
                       {| sample_rate := 44100; dtype := "float32";
                          block_duration := 1 # 22050 |}
                       None [104; 105] 2 [])))
     = List.repeat [x00; x00] 8.
Proof.
  destruct (say_streams_the_wav sample_width_pcm float_tobytes_zero
              frame_mean_exact np_exact file_sr_bs_gen_absent ESpeakNG_example
              synth_wav_example wave_read_example
              {| sample_rate := 44100; dtype := "float32";
                 block_duration := 1 # 22050 |}
              None [104; 105] 2 [] _ _ 22050 eq_refl eq_refl eq_refl
              eq_refl ltac:(lia)) as (Hf & _ & blocks & Hb & Hs).
  split; [exact Hf|]. unfold say_example. rewrite Hs.
  vm_compute in Hb. injection Hb as <-. reflexivity.
Defined.
